(** * LSRIS mathematical engine (src/utils/math.ts): shallow embedding

    The engine is a set of pure functions over JavaScript numbers and arrays.
    JavaScript numbers are idealised here as real numbers extended with the
    one non-numeric value the engine manufactures and tests for, [NaN]:

    - arithmetic on finite numbers is exact real arithmetic (no rounding);
    - [NaN] is absorbing for arithmetic and false for every comparison;
    - reading an array out of range gives [undefined] in JavaScript; every
      use the engine makes of such a value (arithmetic, [||], [isNaN],
      [==]) treats it as it treats [NaN], so both are the constructor [NaN];
    - the infinities and the sign of zero are not represented.  On finite
      inputs the engine divides by zero only in [movingAverage] and
      [weightedMovingAverage] called with a window <= 0, and there the
      dividend is the sum of an empty slice ([nonpositive_window_slice]
      below), so the quotient is 0/0 = NaN.

    Array lengths and indexes are [nat] (or [Z] where the source subtracts
    from them), window sizes are integers, arrays are lists, objects are
    records.

    Where a result turns on the rounding of binary64 arithmetic the function
    is embedded a second time, over binary64 numbers, in [Binary64]. *)

From Stdlib Require Import String Reals Lra Lia ZArith List Bool Zfloor Sorted.
From Stdlib Require Ascii HexadecimalString HexadecimalPos HexadecimalN.
From Stdlib Require Floats.
Import ListNotations.

Open Scope R_scope.

(** ** JavaScript numbers *)

Inductive num : Type :=
| NaN
| Fin (r : R).

Coercion Fin : R >-> num.

Declare Scope num_scope.
Delimit Scope num_scope with num.
Bind Scope num_scope with num.

Definition nadd (a b : num) : num :=
  match a, b with Fin x, Fin y => Fin (x + y) | _, _ => NaN end.

Definition nsub (a b : num) : num :=
  match a, b with Fin x, Fin y => Fin (x - y) | _, _ => NaN end.

Definition nmul (a b : num) : num :=
  match a, b with Fin x, Fin y => Fin (x * y) | _, _ => NaN end.

(** [a / b]; 0/0 is NaN (see the header for a non-zero dividend). *)
Definition ndiv (a b : num) : num :=
  match a, b with
  | Fin x, Fin y => if Req_dec_T y 0 then NaN else Fin (x / y)
  | _, _ => NaN
  end.

(** [a ** 2] *)
Definition nsqr (a : num) : num :=
  match a with Fin x => Fin (x * x) | NaN => NaN end.

Infix "+" := nadd : num_scope.
Infix "-" := nsub : num_scope.
Infix "*" := nmul : num_scope.
Infix "/" := ndiv : num_scope.

Definition isNaN (a : num) : bool :=
  match a with NaN => true | Fin _ => false end.

(** [a === b] on numbers: NaN is equal to nothing. *)
Definition strict_eq (a b : num) : bool :=
  match a, b with
  | Fin x, Fin y => if Req_dec_T x y then true else false
  | _, _ => false
  end.

(** [a < b] and [a > b] *)
Definition num_lt (a b : num) : bool :=
  match a, b with
  | Fin x, Fin y => if Rlt_dec x y then true else false
  | _, _ => false
  end.

Definition num_gt (a b : num) : bool := num_lt b a.

(** Truthiness of a number: 0 and NaN (and undefined) are falsy. *)
Definition truthy (a : num) : bool :=
  match a with
  | NaN => false
  | Fin x => if Req_dec_T x 0 then false else true
  end.

(** [a || b] *)
Definition or_else (a b : num) : num := if truthy a then a else b.

Module Math.

Definition min (a b : num) : num :=
  match a, b with Fin x, Fin y => Fin (Rmin x y) | _, _ => NaN end.

Definition max (a b : num) : num :=
  match a, b with Fin x, Fin y => Fin (Rmax x y) | _, _ => NaN end.

Definition abs (a : num) : num :=
  match a with Fin x => Fin (Rabs x) | NaN => NaN end.

(** [Math.sqrt]: NaN below zero. *)
Definition sqrt (a : num) : num :=
  match a with
  | Fin x => if Rlt_dec x 0 then NaN else Fin (R_sqrt.sqrt x)
  | NaN => NaN
  end.

(** [Math.round]: the nearest integer, ties towards +infinity. *)
Definition round (a : num) : num :=
  match a with
  | Fin x => Fin (IZR (Zfloor (x + / 2)))
  | NaN => NaN
  end.

End Math.

(** ** Arrays *)

(** [l[i]] *)
Definition get (l : list num) (i : nat) : num := nth i l NaN.

(** [l.reduce((a, b) => a + b, 0)] *)
Definition sum (l : list num) : num := fold_left nadd l (Fin 0).

(** [l.length] as a number *)
Definition len (l : list num) : num := Fin (INR (length l)).

(** [l.at(-1)] *)
Definition at_last (l : list num) : num := last l NaN.

(** Relative index of [Array.prototype.slice]: negative counts from the end,
    and the result is clamped to [0, length]. *)
Definition rel_index (n : nat) (k : Z) : nat :=
  if (k <? 0)%Z then Z.to_nat (Z.max (Z.of_nat n + k) 0)
  else Nat.min (Z.to_nat k) n.

(** [l.slice(a, b)] *)
Definition slice {A : Type} (l : list A) (a b : Z) : list A :=
  let s := rel_index (length l) a in
  let e := rel_index (length l) b in
  firstn (e - s) (skipn s l).

(** [l.map((v, i) => f v i)] *)
Definition mapi {A B : Type} (f : A -> nat -> B) (l : list A) : list B :=
  map (fun p => f (snd p) (fst p)) (combine (seq 0 (length l)) l).

(** [for (let i = lo; i < hi; i++)] over integers: the values [i] takes. *)
Definition range (lo hi : Z) : list Z :=
  map (fun k => (lo + Z.of_nat k)%Z) (seq 0 (Z.to_nat (hi - lo))).

(** ** UTILITY FUNCTIONS: mean, stdDev *)

Definition mean (values : list num) : num :=
  if (length values =? 0)%nat then Fin 0
  else (sum values / len values)%num.

Definition stdDev (values : list num) : num :=
  if (length values <? 2)%nat then Fin 0
  else
    let mu := mean values in
    Math.sqrt
      (fold_left (fun s v => s + nsqr (v - mu))%num values (Fin 0)
       / len values)%num.

(** ** 11. COEFFICIENT OF VARIATION *)

Definition coefficientOfVariation (values : list num) : num :=
  let mu := mean values in
  if strict_eq mu 0 then Fin 0
  else (stdDev values / mu)%num.

(** ** ENTERPRISE HEALTH INDEX *)

Record health_params : Type := {
  cagr : num;
  cv : num;
  profit_margin : num;
  mape : num
}.

Record health_components : Type := {
  growth : num;
  stability : num;
  profitability : num;
  forecast_reliability : num
}.

Record health_index : Type := {
  score : num;
  components : health_components
}.

Definition growthScore (params : health_params) : num :=
  Math.min 100 (Math.max 0 (50 + cagr params * 100)%num).

Definition stabilityScore (params : health_params) : num :=
  Math.min 100 (Math.max 0 ((1 - cv params) * 100)%num).

Definition profitScore (params : health_params) : num :=
  Math.min 100 (Math.max 0 (profit_margin params * 2)%num).

Definition forecastScore (params : health_params) : num :=
  Math.min 100 (Math.max 0 (100 - mape params * 2)%num).

Definition enterpriseHealthIndex (params : health_params) : health_index :=
  let score :=
    (0.25 * growthScore params + 0.25 * stabilityScore params
     + 0.25 * profitScore params + 0.25 * forecastScore params)%num in
  {| score := Math.round score;
     components :=
       {| growth := Math.round (growthScore params);
          stability := Math.round (stabilityScore params);
          profitability := Math.round (profitScore params);
          forecast_reliability := Math.round (forecastScore params) |} |}.

(** ** 1. LINEAR REGRESSION (Ordinary Least Squares) *)

Record regression : Type := {
  slope : num;
  intercept : num;
  predict : num -> num;
  r_squared : num
}.

(** State of the accumulation loop of [linearRegression]. *)
Record ss_acc : Type := { ssxy : num; ssxx : num; ssyy : num }.

(** Body of the loop [for (let i = 0; i < n; i++)]. *)
Definition ss_step (xs values : list num) (xMean yMean : num)
  (acc : ss_acc) (i : nat) : ss_acc :=
  {| ssxy := (ssxy acc + (get xs i - xMean) * (get values i - yMean))%num;
     ssxx := (ssxx acc + nsqr (get xs i - xMean))%num;
     ssyy := (ssyy acc + nsqr (get values i - yMean))%num |}.

Definition linearRegression (values : list num) : regression :=
  let n := length values in
  if (n <? 2)%nat then
    {| slope := 0;
       intercept := or_else (get values 0) 0;
       predict := fun _ => or_else (get values 0) 0;
       r_squared := 0 |}
  else
    let xs := mapi (fun _ i => Fin (INR i)) values in
    let xMean := (sum xs / len values)%num in
    let yMean := (sum values / len values)%num in
    let acc :=
      fold_left (ss_step xs values xMean yMean) (seq 0 n)
                {| ssxy := 0; ssxx := 0; ssyy := 0 |} in
    let slope := if strict_eq (ssxx acc) 0 then Fin 0
                 else (ssxy acc / ssxx acc)%num in
    let intercept := (yMean - slope * xMean)%num in
    let r_squared := if strict_eq (ssyy acc) 0 then Fin 0
                     else (nsqr (ssxy acc) / (ssxx acc * ssyy acc))%num in
    {| slope := slope;
       intercept := intercept;
       predict := fun x => (slope * x + intercept)%num;
       r_squared := r_squared |}.

(** ** 2. SIMPLE MOVING AVERAGE

    The window is an integer count. *)

Definition movingAverage (values : list num) (window : Z) : list num :=
  fold_left
    (fun result i =>
       if (Z.of_nat i <? window - 1)%Z then result ++ [NaN]
       else
         let slice_ := slice values (Z.of_nat i - window + 1) (Z.of_nat i + 1) in
         result ++ [(sum slice_ / Fin (IZR window))%num])
    (seq 0 (length values)) [].

(** ** 3. EXPONENTIAL MOVING AVERAGE *)

Definition exponentialMovingAverage (values : list num) (alpha : num)
  : list num :=
  if (length values =? 0)%nat then []
  else
    fold_left
      (fun result i =>
         result ++ [(alpha * get values i + (1 - alpha) * get result (i - 1))%num])
      (seq 1 (length values - 1)) [get values 0].

(** ** 4. WEIGHTED MOVING AVERAGE *)

Definition weightedMovingAverage (values : list num) (window : Z) : list num :=
  let weights := map (fun i => Fin (INR i + 1)) (seq 0 (Z.to_nat window)) in
  let weightSum := sum weights in
  fold_left
    (fun result i =>
       if (Z.of_nat i <? window - 1)%Z then result ++ [NaN]
       else
         let slice_ := slice values (Z.of_nat i - window + 1) (Z.of_nat i + 1) in
         let weighted :=
           fold_left (fun s jv => (s + snd jv * get weights (fst jv))%num)
                     (combine (seq 0 (length slice_)) slice_) (Fin 0) in
         result ++ [(weighted / weightSum)%num])
    (seq 0 (length values)) [].

(** ** 7. PEARSON CORRELATION COEFFICIENT *)

Record pearson_acc : Type := { num_ : num; dx2 : num; dy2 : num }.

(** Body of the loop [for (let i = 0; i < n; i++)]. *)
Definition pearson_step (xs ys : list num) (xMean yMean : num)
  (acc : pearson_acc) (i : nat) : pearson_acc :=
  let dx := (get xs i - xMean)%num in
  let dy := (get ys i - yMean)%num in
  {| num_ := (num_ acc + dx * dy)%num;
     dx2 := (dx2 acc + nsqr dx)%num;
     dy2 := (dy2 acc + nsqr dy)%num |}.

Definition pearsonCorrelation (xs ys : list num) : num :=
  let n := Nat.min (length xs) (length ys) in
  if (n <? 2)%nat then Fin 0
  else
    let xMean := mean (slice xs 0 (Z.of_nat n)) in
    let yMean := mean (slice ys 0 (Z.of_nat n)) in
    let acc :=
      fold_left (pearson_step xs ys xMean yMean) (seq 0 n)
                {| num_ := 0; dx2 := 0; dy2 := 0 |} in
    if strict_eq (dx2 acc) 0 || strict_eq (dy2 acc) 0 then Fin 0
    else (num_ acc / Math.sqrt (dx2 acc * dy2 acc))%num.

(** ** 14. SENSITIVITY SIMULATION *)

Record scenario_spec : Type := {
  label : string;
  priceΔ : num;
  qtyΔ : num
}.

Record SensitivityResult : Type := {
  scenario : string;
  price_change : num;
  quantity_change : num;
  estimated_revenue : num;
  estimated_profit : num
}.

Definition scenarios : list scenario_spec :=
  [ {| label := "Base"; priceΔ := 0; qtyΔ := 0 |};
    {| label := "+5% Price"; priceΔ := 0.05; qtyΔ := 0 |};
    {| label := "-5% Price"; priceΔ := -0.05; qtyΔ := 0 |};
    {| label := "+10% Qty"; priceΔ := 0; qtyΔ := 0.10 |};
    {| label := "-10% Qty"; priceΔ := 0; qtyΔ := -0.10 |};
    {| label := "+5% Price, +10% Qty"; priceΔ := 0.05; qtyΔ := 0.10 |};
    {| label := "-5% Price, -10% Qty"; priceΔ := -0.05; qtyΔ := -0.10 |} ].

Definition sensitivitySimulation
  (baseRevenue baseQuantity basePrice totalCost : num)
  : list SensitivityResult :=
  map (fun s =>
         let newPrice := (basePrice * (1 + priceΔ s))%num in
         let newQty := (baseQuantity * (1 + qtyΔ s))%num in
         let rev := (newPrice * newQty)%num in
         {| scenario := label s;
            price_change := (priceΔ s * 100)%num;
            quantity_change := (qtyΔ s * 100)%num;
            estimated_revenue := rev;
            estimated_profit := (rev - totalCost)%num |})
      scenarios.

(** ** STRUCTURAL BREAK DETECTION (mean shift) *)

Definition detectStructuralBreaks (values : list num) (sensitivity : num)
  : list Z :=
  let sigma := stdDev values in
  let n := Z.of_nat (length values) in
  fold_left
    (fun breakPoints i =>
       let left := slice values (Z.max 0 (i - 5)) i in
       let right := slice values i (Z.min n (i + 5)) in
       if num_gt (Math.abs (mean left - mean right)) (sensitivity * sigma)
       then breakPoints ++ [i]
       else breakPoints)
    (range 5 (n - 5)) [].

(** ** generateForecast *)

Record forecast_point : Type := {
  linear : num;
  ma : num;
  ema : num;
  wma : num;
  lower : num;
  upper : num
}.

Definition generateForecast
  (revenues : list num) (periods : nat) (maWindow : Z) (emaAlpha : num)
  : list forecast_point :=
  let reg := linearRegression revenues in
  let emaVals := exponentialMovingAverage revenues emaAlpha in
  let residuals := mapi (fun v i => (v - predict reg (Fin (INR i)))%num) revenues in
  let se := stdDev (filter (fun r => negb (isNaN r)) residuals) in
  let lastMA :=
    or_else (at_last (filter (fun v => negb (isNaN v))
                             (movingAverage revenues maWindow))) 0 in
  let lastEMA := or_else (at_last emaVals) 0 in
  let wmaVals := weightedMovingAverage revenues maWindow in
  let lastWMA := or_else (at_last (filter (fun v => negb (isNaN v)) wmaVals)) 0 in
  let n := len revenues in
  map (fun i =>
         let x := (n + Fin (INR i))%num in
         let linear := predict reg x in
         {| linear := linear;
            ma := lastMA;
            ema := lastEMA;
            wma := lastWMA;
            lower := (linear - 1.96 * se)%num;
            upper := (linear + 1.96 * se)%num |})
      (seq 0 periods).

(** ** ADDITIVE DECOMPOSITION: R(t) = T(t) + S(t) + E(t) *)

Inductive weekday : Type :=
| Sunday | Monday | Tuesday | Wednesday | Thursday | Friday | Saturday.

(** The number [Date.prototype.getDay] returns for a weekday. *)
Definition day_number (d : weekday) : nat :=
  match d with
  | Sunday => 0 | Monday => 1 | Tuesday => 2 | Wednesday => 3
  | Thursday => 4 | Friday => 5 | Saturday => 6
  end%nat.

Record decomposition_point : Type := {
  date : string;
  revenue : num;
  trend : num;
  seasonal : num;
  residual : num
}.

(** [l[k] = f(l[k])] for an index [k] inside the array. *)
Definition update (l : list num) (k : nat) (f : num -> num) : list num :=
  firstn k l ++ match skipn k l with [] => [] | v :: tl => f v :: tl end.

Section Decomposition.

(** [new Date(s).getDay()]: the weekday of the date a string denotes, in
    the time zone of the process; [None] when the string is not a date
    (the result is then NaN).  Parsing and the time zone belong to the
    JavaScript runtime, so the function is a parameter. *)
Variable getDay : string -> option weekday.

(** [new Date(dates[i]).getDay()]; [new Date(undefined)] is not a date. *)
Definition dow_at (dates : list string) (i : nat) : option weekday :=
  match nth_error dates i with
  | Some d => getDay d
  | None => None
  end.

Definition additiveDecomposition (dates : list string) (revenues : list num)
  : list decomposition_point :=
  let n := length revenues in
  let reg := linearRegression revenues in
  let trends := mapi (fun _ i => predict reg (Fin (INR i))) revenues in
  let weekdays :=
    fold_left
      (fun tc i =>
         match dow_at dates i with
         | Some dow =>
             (update (fst tc) (day_number dow)
                     (fun t => (t + (get revenues i - get trends i))%num),
              update (snd tc) (day_number dow) (fun c => (c + 1)%num))
         | None => tc   (* the write lands on the property "NaN" *)
         end)
      (seq 0 n) (repeat (Fin 0) 7, repeat (Fin 0) 7) in
  let weekdayTotals := fst weekdays in
  let weekdayCounts := snd weekdays in
  let weekdayAvg :=
    mapi (fun t i => if num_gt (get weekdayCounts i) 0
                     then (t / get weekdayCounts i)%num else Fin 0)
         weekdayTotals in
  let avgSeasonal := mean weekdayAvg in
  let seasonalAdj := map (fun s => (s - avgSeasonal)%num) weekdayAvg in
  mapi (fun date i =>
          let seasonal :=
            match getDay date with
            | Some dow => get seasonalAdj (day_number dow)
            | None => NaN
            end in
          let trend := get trends i in
          {| date := date;
             revenue := get revenues i;
             trend := trend;
             seasonal := seasonal;
             residual := (get revenues i - trend - seasonal)%num |})
       dates.

End Decomposition.

(** * The other functions of the engine *)

(** [a <= b] *)
Definition num_le (a b : num) : bool :=
  match a, b with
  | Fin x, Fin y => if Rle_dec x y then true else false
  | _, _ => false
  end.

(** ** 6. Z-SCORE (Standardization) *)


(** ** 8. CONFIDENCE INTERVAL *)

Module CI.
Record t : Type := { lower : num; upper : num; margin : num }.
End CI.

Definition confidenceInterval (values : list num) : CI.t :=
  let mu := mean values in
  let sigma := stdDev values in
  let n := length values in
  let margin := if (0 <? n)%nat
                then (1.96 * sigma / Math.sqrt (len values))%num
                else Fin 0 in
  {| CI.lower := (mu - margin)%num;
     CI.upper := (mu + margin)%num;
     CI.margin := margin |}.

Module Band.
Record t : Type := { lower : num; upper : num }.
End Band.

Definition forecastCI (predicted : num) (residuals : list num) : Band.t :=
  let se := stdDev residuals in
  {| Band.lower := (predicted - 1.96 * se)%num;
     Band.upper := (predicted + 1.96 * se)%num |}.

(** ** 9. BREAK-EVEN ANALYSIS *)

Module BreakEven.
Record t : Type := {
  profit : num;
  profit_margin : num;
  surplus_deficit : num;
  break_even : num
}.
End BreakEven.

Definition breakEvenAnalysis (revenue totalCost : num) : BreakEven.t :=
  let profit := (revenue - totalCost)%num in
  let profit_margin := if num_gt revenue 0 then (profit / revenue)%num
                       else Fin 0 in
  {| BreakEven.profit := profit;
     BreakEven.profit_margin := profit_margin;
     BreakEven.surplus_deficit := profit;
     BreakEven.break_even := totalCost |}.

(** ** 10. PROFIT MARGIN *)

Definition profitMargin (revenue cost : num) : num :=
  if num_le revenue 0 then Fin 0
  else ((revenue - cost) / revenue * 100)%num.

(** ** 12. AUTOCORRELATION (ACF) at lag k

    The largest lag is an integer. *)

Module ACF.
Record t : Type := { lag : Z; correlation : num }.
End ACF.

(** The inner loop [for (let i = lag; i < n; i++)]. *)
Definition acf_num (values : list num) (mu : num) (lag : Z) : num :=
  fold_left
    (fun num_ i =>
       (num_ + (get values (Z.to_nat i) - mu)
               * (get values (Z.to_nat (i - lag)) - mu))%num)
    (range lag (Z.of_nat (length values))) (Fin 0).

Definition autocorrelation (values : list num) (maxLag : Z) : list ACF.t :=
  let mu := mean values in
  let n := Z.of_nat (length values) in
  let denom := fold_left (fun s v => (s + nsqr (v - mu))%num) values (Fin 0) in
  fold_left
    (fun results lag =>
       let num_ := acf_num values mu lag in
       results ++ [ {| ACF.lag := lag;
                       ACF.correlation := if strict_eq denom 0 then Fin 0
                                          else (num_ / denom)%num |} ])
    (range 1 (Z.min maxLag (n - 1) + 1)) [].

(** ** 13. ROLLING WINDOW STATISTICS *)

Module Rolling.
Record t : Type := { index : nat; mean : num; std : num; cv : num }.
End Rolling.

Definition rollingStats (values : list num) (window : Z) : list Rolling.t :=
  mapi
    (fun (_ : num) i =>
       if (Z.of_nat i <? window - 1)%Z
       then {| Rolling.index := i; Rolling.mean := NaN;
               Rolling.std := NaN; Rolling.cv := NaN |}
       else
         let slice_ := slice values (Z.of_nat i - window + 1) (Z.of_nat i + 1) in
         let mu := mean slice_ in
         let sigma := stdDev slice_ in
         {| Rolling.index := i; Rolling.mean := mu; Rolling.std := sigma;
            Rolling.cv := if num_gt mu 0 then (sigma / mu)%num else Fin 0 |})
    values.

(** ** FORECAST ERROR METRICS *)

Module Metrics.
Record t : Type := { mae : num; mse : num; rmse : num; mape : num }.
End Metrics.

Record em_acc : Type := {
  maeSum : num;
  mseSum : num;
  mapeSum : num;
  mapeCount : num
}.

(** Body of the loop; [continue] leaves the sums as they are. *)
Definition em_step (actual forecast : list num) (acc : em_acc) (i : nat)
  : em_acc :=
  if isNaN (get forecast i) then acc
  else
    let err := (get actual i - get forecast i)%num in
    let maeSum' := (maeSum acc + Math.abs err)%num in
    let mseSum' := (mseSum acc + nsqr err)%num in
    if negb (strict_eq (get actual i) 0)
    then {| maeSum := maeSum'; mseSum := mseSum';
            mapeSum := (mapeSum acc + Math.abs (err / get actual i))%num;
            mapeCount := (mapeCount acc + 1)%num |}
    else {| maeSum := maeSum'; mseSum := mseSum';
            mapeSum := mapeSum acc; mapeCount := mapeCount acc |}.

Definition errorMetrics (actual forecast : list num) : Metrics.t :=
  let n := Nat.min (length actual) (length forecast) in
  if (n =? 0)%nat
  then {| Metrics.mae := 0; Metrics.mse := 0; Metrics.rmse := 0;
          Metrics.mape := 0 |}
  else
    let acc := fold_left (em_step actual forecast) (seq 0 n)
                 {| maeSum := 0; mseSum := 0; mapeSum := 0; mapeCount := 0 |} in
    let mae := (maeSum acc / Fin (INR n))%num in
    let mse := (mseSum acc / Fin (INR n))%num in
    {| Metrics.mae := mae;
       Metrics.mse := mse;
       Metrics.rmse := Math.sqrt mse;
       Metrics.mape := if num_gt (mapeCount acc) 0
                       then (mapeSum acc / mapeCount acc * 100)%num
                       else Fin 0 |}.

(** ** Z-SCORE ANOMALY DETECTION *)

Module Anomaly.
Record t : Type := {
  date : string;
  revenue : num;
  zscore : num;
  is_anomaly : bool
}.
End Anomaly.


(** * The correlation in binary64 arithmetic

    [mean] and [pearsonCorrelation] once more, over IEEE 754 binary64
    numbers with round-to-nearest-even, which is what a JavaScript number
    is: [+], [-], [*], [/] and [Math.sqrt] are the correctly rounded
    operations, [===] is the IEEE equality, and [dx ** 2] is the rounded
    product [dx * dx].  An array length enters the arithmetic as the float
    of the same value.  Reading an array out of range gives [undefined],
    which is NaN in arithmetic. *)

Module Binary64.

Import PrimFloat.
Local Open Scope float_scope.

Definition of_length (n : nat) : float := of_uint63 (Uint63.of_Z (Z.of_nat n)).

Definition mean (values : list float) : float :=
  if Nat.eqb (length values) 0 then 0
  else fold_left (fun a b => a + b) values 0 / of_length (length values).

Record pearson_acc := { num_ : float; dx2 : float; dy2 : float }.

Definition pearson_step (xs ys : list float) (xMean yMean : float)
    (acc : pearson_acc) (i : nat) : pearson_acc :=
  let dx := nth i xs nan - xMean in
  let dy := nth i ys nan - yMean in
  {| num_ := num_ acc + dx * dy;
     dx2 := dx2 acc + dx * dx;
     dy2 := dy2 acc + dy * dy |}.

Definition pearsonCorrelation (xs ys : list float) : float :=
  let n := Nat.min (length xs) (length ys) in
  if Nat.ltb n 2 then 0
  else
    let xMean := mean (firstn n xs) in
    let yMean := mean (firstn n ys) in
    let acc := fold_left (pearson_step xs ys xMean yMean) (seq 0 n)
                 {| num_ := 0; dx2 := 0; dy2 := 0 |} in
    if eqb (dx2 acc) 0 || eqb (dy2 acc) 0 then 0
    else num_ acc / sqrt (dx2 acc * dy2 acc).

End Binary64.

(** * Storage layer (src/utils/storage.ts): PIN, orders and costs

    The storage layer keeps JSON texts in the browser's [localStorage].
    A slot of the store is modelled by the value its text parses to:
    [None] when the key is missing, its text is empty or does not parse
    (the three cases in which [get] returns its fallback), [Some v]
    otherwise.  A slot holds a value of the type its readers expect, and
    [localStorage.setItem] is taken to succeed.

    Writing a value and reading it back goes through [JSON.stringify] and
    [JSON.parse].  Strings come back unchanged; a number that is NaN comes
    back as [null].  So the records below keep the string fields the code
    compares, gather the remaining fields in one component, and take the
    JSON round trip of that component as a variable of the section.

    Strings hold the characters U+0000..U+00FF, so that [charCodeAt] is the
    number of the character. *)

Module Storage.

(** ** hashPin *)

Definition charCodeAt (c : Ascii.ascii) : Z := Z.of_N (Ascii.N_of_ascii c).

(** [x >>> 0] on an integer 0 <= x < 2^53 *)
Definition to_uint32 (x : Z) : Z := (x mod 2 ^ 32)%Z.

(** [n.toString(16)] on an integer n >= 0 *)
Definition toString16 (n : Z) : string :=
  HexadecimalString.NilZero.string_of_uint (N.to_hex_uint (Z.to_N n)).

Definition hash_step (hash : Z) (c : Ascii.ascii) : Z :=
  to_uint32 (hash * 31 + charCodeAt c)%Z.

(** the value of [hash] when the loop of [hashPin] ends *)
Definition hash_loop (pin : string) : Z :=
  fold_left hash_step (list_ascii_of_string pin) 0%Z.

Definition hashPin (pin : string) : string := toString16 (hash_loop pin).

(** [!!s] on a string *)
Definition nonempty (s : string) : bool :=
  match s with EmptyString => false | String _ _ => true end.

(** ** Arrays *)

Fixpoint findIndex_from {T : Type} (p : T -> bool) (l : list T) (i : Z) : Z :=
  match l with
  | [] => (-1)%Z
  | x :: tl => if p x then i else findIndex_from p tl (i + 1)%Z
  end.

Definition findIndex {T : Type} (p : T -> bool) (l : list T) : Z :=
  findIndex_from p l 0%Z.

(** [l[idx] = x] for an index inside the array, the only kind the storage
    layer writes to: the index comes from [findIndex] *)
Fixpoint assign {T : Type} (l : list T) (idx : nat) (x : T) : list T :=
  match l, idx with
  | [], _ => []
  | _ :: tl, O => x :: tl
  | y :: tl, S k => y :: assign tl k x
  end.

Section Store.

Variables settings details amounts : Type.
Variable json_settings : settings -> settings.
Variable json_details : details -> details.
Variable json_amounts : amounts -> amounts.

Record Config := {
  pin_hash : string;
  config_rest : settings  (* forecasting_window, ema_alpha, currency_symbol *)
}.

Record Order := {
  order_id : string;
  order_date : string;
  order_rest : details    (* item, quantity, prices, notes, created_at *)
}.

Record CostEntry := {
  cost_id : string;
  cost_month : string;
  cost_rest : amounts     (* the five cost figures *)
}.

Definition json_config (c : Config) : Config :=
  {| pin_hash := pin_hash c; config_rest := json_settings (config_rest c) |}.

Definition json_order (o : Order) : Order :=
  {| order_id := order_id o; order_date := order_date o;
     order_rest := json_details (order_rest o) |}.

Definition json_cost (c : CostEntry) : CostEntry :=
  {| cost_id := cost_id c; cost_month := cost_month c;
     cost_rest := json_amounts (cost_rest c) |}.

(** The store, and the object [DEFAULT_CONFIG]: [getConfig] hands out that
    very object when the store has no configuration, and [setPin] writes
    into the object it was handed. *)
Record state := {
  ORDERS : option (list Order);
  COSTS : option (list CostEntry);
  CONFIG : option Config;
  DEFAULT_CONFIG : Config
}.

(** [get(key, fallback)] *)
Definition get_slot {T : Type} (slot : option T) (fallback : T) : T :=
  match slot with Some v => v | None => fallback end.

Definition set_ORDERS (st : state) (value : list Order) : state :=
  {| ORDERS := Some (map json_order value); COSTS := COSTS st;
     CONFIG := CONFIG st; DEFAULT_CONFIG := DEFAULT_CONFIG st |}.

Definition set_COSTS (st : state) (value : list CostEntry) : state :=
  {| ORDERS := ORDERS st; COSTS := Some (map json_cost value);
     CONFIG := CONFIG st; DEFAULT_CONFIG := DEFAULT_CONFIG st |}.

Definition set_CONFIG (st : state) (value : Config) : state :=
  {| ORDERS := ORDERS st; COSTS := COSTS st;
     CONFIG := Some (json_config value); DEFAULT_CONFIG := DEFAULT_CONFIG st |}.

(** ** Orders *)

Definition getOrders (st : state) : list Order := get_slot (ORDERS st) [].

Definition saveOrder (st : state) (order : Order) : state :=
  let orders := getOrders st in
  let idx := findIndex (fun o => String.eqb (order_id o) (order_id order)) orders in
  set_ORDERS st (if (0 <=? idx)%Z then assign orders (Z.to_nat idx) order
                 else orders ++ [order]).

Definition deleteOrder (st : state) (id : string) : state :=
  set_ORDERS st (filter (fun o => negb (String.eqb (order_id o) id)) (getOrders st)).

(** what [handleClearAll] of the settings page does once the user has
    confirmed: [getOrders().forEach(o => deleteOrder(o.id))] *)
Definition handleClearAll (st : state) : state :=
  fold_left (fun s o => deleteOrder s (order_id o)) (getOrders st) st.

(** ** Costs *)

Definition getCosts (st : state) : list CostEntry := get_slot (COSTS st) [].

Definition saveCost (st : state) (cost : CostEntry) : state :=
  let costs := getCosts st in
  let idx := findIndex (fun c => String.eqb (cost_id c) (cost_id cost)) costs in
  set_COSTS st (if (0 <=? idx)%Z then assign costs (Z.to_nat idx) cost
                else costs ++ [cost]).

(** the entry [handleSave] of the costs page (src/pages/Costs.tsx) builds
    and saves for a month: its id is [cost_<month>] *)
Definition handleSave (st : state) (month : string) (figures : amounts) : state :=
  saveCost st {| cost_id := "cost_" ++ month; cost_month := month;
                 cost_rest := figures |}.

(** [null] is [None] *)
Definition getCostForMonth (st : state) (month : string) : option CostEntry :=
  find (fun c => String.eqb (cost_month c) month) (getCosts st).

(** ** Configuration and PIN *)

Definition getConfig (st : state) : Config := get_slot (CONFIG st) (DEFAULT_CONFIG st).

Definition saveConfig (st : state) (config : Config) : state := set_CONFIG st config.

Definition isPinSet (st : state) : bool := nonempty (pin_hash (getConfig st)).

Definition setPin (st : state) (pin : string) : state :=
  let config :=
    {| pin_hash := hashPin pin; config_rest := config_rest (getConfig st) |} in
  let st1 :=
    match CONFIG st with
    | Some _ => st
    | None => {| ORDERS := ORDERS st; COSTS := COSTS st; CONFIG := CONFIG st;
                 DEFAULT_CONFIG := config |}
    end in
  saveConfig st1 config.

Definition verifyPin (st : state) (pin : string) : bool :=
  let config := getConfig st in
  if negb (nonempty (pin_hash config)) then true
  else String.eqb (hashPin pin) (pin_hash config).

End Store.

Arguments pin_hash {settings} _.
Arguments config_rest {settings} _.
Arguments order_id {details} _.
Arguments order_date {details} _.
Arguments order_rest {details} _.
Arguments cost_id {amounts} _.
Arguments cost_month {amounts} _.
Arguments cost_rest {amounts} _.
Arguments ORDERS {settings details amounts} _.
Arguments COSTS {settings details amounts} _.
Arguments CONFIG {settings details amounts} _.
Arguments DEFAULT_CONFIG {settings details amounts} _.
Arguments getOrders {settings details amounts} _.
Arguments saveOrder {settings details amounts} _ _ _.
Arguments deleteOrder {settings details amounts} _ _ _.
Arguments handleClearAll {settings details amounts} _ _.
Arguments getCosts {settings details amounts} _.
Arguments saveCost {settings details amounts} _ _ _.
Arguments handleSave {settings details amounts} _ _ _ _.
Arguments getCostForMonth {settings details amounts} _ _.
Arguments getConfig {settings details amounts} _.
Arguments saveConfig {settings details amounts} _ _ _.
Arguments isPinSet {settings details amounts} _.
Arguments setPin {settings details amounts} _ _ _.
Arguments verifyPin {settings details amounts} _ _.
Arguments json_order {details} _ _.
Arguments json_cost {amounts} _ _.
Arguments json_config {settings} _ _.

End Storage.

(** ** Reference definitions for the properties of the storage layer *)

(** the polynomial the loop of [hashPin] evaluates, without the wrap-around *)
Definition hash_poly (l : list Ascii.ascii) : Z :=
  fold_left (fun h c => (h * 31 + Storage.charCodeAt c)%Z) l 0%Z.

Definition digit_code (c : Ascii.ascii) : Prop :=
  (48 <= Storage.charCodeAt c <= 57)%Z.

(** a string of the keys '0'..'9' of the PIN pad *)
Definition isDigits (s : string) : bool :=
  forallb (fun c => (48 <=? Storage.charCodeAt c)%Z && (Storage.charCodeAt c <=? 57)%Z)
          (list_ascii_of_string s).

(** a store that was never written, with the default configuration still
    as the source declares it ([pin_hash: '']) *)
Definition fresh_store {settings details amounts : Type} (defaults : settings)
  : Storage.state settings details amounts :=
  {| Storage.ORDERS := None; Storage.COSTS := None; Storage.CONFIG := None;
     Storage.DEFAULT_CONFIG :=
       {| Storage.pin_hash := EmptyString; Storage.config_rest := defaults |} |}.

(** * Mathematical reference definitions

    The quantities the specification names, over the reals. *)

Module Spec.

(** Sum of a sequence. *)
Definition Rsum (l : list R) : R := fold_right Rplus 0 l.

(** Arithmetic mean. *)
Definition Rmean (l : list R) : R := Rsum l / INR (length l).

(** Sum of squared deviations from the mean. *)
Definition sq_dev (l : list R) : R :=
  Rsum (map (fun v => (v - Rmean l) * (v - Rmean l)) l).

(** Population variance and standard deviation (divide by n). *)
Definition pop_variance (l : list R) : R := sq_dev l / INR (length l).

Definition pop_stddev (l : list R) : R := sqrt (pop_variance l).

(** Clamping to [0, 100]. *)
Definition clamp (x : R) : R := Rmin 100 (Rmax 0 x).

(** Rounding to the nearest integer, halves upwards. *)
Definition round_half_up (x : R) : Z := Zfloor (x + / 2).

(** Ordinary least squares of a series against its positions 0 .. n-1. *)
Definition indexes (n : nat) : list R := map INR (seq 0 n).

Definition xbar (n : nat) : R := Rmean (indexes n).

Definition Sxy (l : list R) : R :=
  Rsum (map (fun i => (INR i - xbar (length l)) * (nth i l 0 - Rmean l))
            (seq 0 (length l))).

Definition Sxx (n : nat) : R :=
  Rsum (map (fun i => (INR i - xbar n) * (INR i - xbar n)) (seq 0 n)).

Definition Syy (l : list R) : R :=
  Rsum (map (fun i => (nth i l 0 - Rmean l) * (nth i l 0 - Rmean l))
            (seq 0 (length l))).

Definition ols_slope (l : list R) : R := Sxy l / Sxx (length l).

Definition ols_intercept (l : list R) : R :=
  Rmean l - ols_slope l * xbar (length l).

(** Squared Pearson r, 0 when the series has no variance. *)
Definition ols_r_squared (l : list R) : R :=
  if Req_dec_T (Syy l) 0 then 0
  else (Sxy l * Sxy l) / (Sxx (length l) * Syy l).

(** The fitted line; with fewer than two points, the flat line at the
    single value (at 0 when there is none). *)
Definition fitted (l : list R) (x : R) : R :=
  if (length l <? 2)%nat then nth 0 l 0
  else ols_slope l * x + ols_intercept l.

(** Residuals of the fit over the whole series. *)
Definition residuals (l : list R) : list R :=
  map (fun i => nth i l 0 - fitted l (INR i)) (seq 0 (length l)).


(** Arithmetic mean of the five values at positions k .. k+4. *)
Definition mean5 (l : list R) (k : nat) : R :=
  (nth k l 0 + nth (k + 1) l 0 + nth (k + 2) l 0 + nth (k + 3) l 0
   + nth (k + 4) l 0) / 5.


End Spec.

(** A number that is not NaN. *)
Definition finite (a : num) : Prop := exists r, a = Fin r.

(** The decomposition invariant at a point: the four fields are numbers,
    the residual is revenue - trend - seasonal, and
    revenue = trend + seasonal + residual. *)
Definition decomposition_exact (p : decomposition_point) : Prop :=
  exists r t s e : R,
    revenue p = Fin r /\ trend p = Fin t /\ seasonal p = Fin s
    /\ residual p = Fin e /\ e = r - t - s /\ r = t + s + e.

(** What iteration [i] of the loop of [movingAverage] pushes. *)
Definition ma_entry (values : list num) (window : Z) (i : nat) : num :=
  if (Z.of_nat i <? window - 1)%Z then NaN
  else (sum (slice values (Z.of_nat i - window + 1) (Z.of_nat i + 1))
        / Fin (IZR window))%num.





(** * Properties *)

(** ** Numbers *)

Lemma clamp_bounds (x : R) : 0 <= Spec.clamp x <= 100.
Proof.
  unfold Spec.clamp, Rmin, Rmax.
  destruct (Rle_dec 0 x); destruct (Rle_dec 100 _); lra.
Qed.

Lemma clamp_id (x : R) : 0 <= x <= 100 -> Spec.clamp x = x.
Proof.
  intros H. unfold Spec.clamp, Rmin, Rmax.
  destruct (Rle_dec 0 x); destruct (Rle_dec 100 _); lra.
Qed.

Lemma round_half_up_bounds (x : R) :
  0 <= x <= 100 -> (0 <= Spec.round_half_up x <= 100)%Z.
Proof.
  intros H. unfold Spec.round_half_up.
  pose proof (Zfloor_bound (x + / 2)) as [Hlo Hhi].
  split.
  - apply Zfloor_lub. simpl. lra.
  - apply Z.lt_succ_r. apply lt_IZR.
    unfold Z.succ. rewrite plus_IZR. simpl. lra.
Qed.

Lemma round_half_up_eq (x : R) (z : Z) :
  IZR z - / 2 <= x < IZR z + / 2 -> Spec.round_half_up x = z.
Proof.
  intros H. unfold Spec.round_half_up. apply Zfloor_eq. lra.
Qed.

Lemma clamp_fin (x : R) : Math.min 100 (Math.max 0 (Fin x)) = Fin (Spec.clamp x).
Proof. reflexivity. Qed.

Lemma round_fin (x : R) : Math.round (Fin x) = Fin (IZR (Spec.round_half_up x)).
Proof. reflexivity. Qed.

(** ** Health index *)

(** The four unrounded sub-scores on real inputs. *)
Lemma sub_scores_fin (c v p m : R) :
  let params := {| cagr := c; cv := v; profit_margin := p; mape := m |} in
  growthScore params = Fin (Spec.clamp (50 + c * 100))
  /\ stabilityScore params = Fin (Spec.clamp ((1 - v) * 100))
  /\ profitScore params = Fin (Spec.clamp (p * 2))
  /\ forecastScore params = Fin (Spec.clamp (100 - m * 2)).
Proof. repeat split; reflexivity. Qed.

(** C1: on cagr = 0, cv = 0, profit_margin = 0.25 (a fraction) and mape = 0
    the code computes growth 50, stability 100, forecast_reliability 100 but
    profitability 1 and overall score 63: the margin is multiplied by 2, not
    by 200, so the claimed profitability 50 and score 75 are not what comes
    out. *)
Theorem C1_health_index_quarter_margin :
  enterpriseHealthIndex
    {| cagr := 0; cv := 0; profit_margin := 0.25; mape := 0 |}
  = {| score := 63;
       components := {| growth := 50; stability := 100;
                        profitability := 1; forecast_reliability := 100 |} |}
  /\ profitability
       (components (enterpriseHealthIndex
          {| cagr := 0; cv := 0; profit_margin := 0.25; mape := 0 |}))
     <> Fin 50
  /\ score (enterpriseHealthIndex
          {| cagr := 0; cv := 0; profit_margin := 0.25; mape := 0 |})
     <> Fin 75.
Proof.
  assert (E : enterpriseHealthIndex
    {| cagr := 0; cv := 0; profit_margin := 0.25; mape := 0 |}
  = {| score := 63;
       components := {| growth := 50; stability := 100;
                        profitability := 1; forecast_reliability := 100 |} |}).
  { unfold enterpriseHealthIndex.
    destruct (sub_scores_fin 0 0 0.25 0) as (Hg & Hs & Hp & Hf).
    cbv zeta in Hg, Hs, Hp, Hf. rewrite Hg, Hs, Hp, Hf.
    rewrite (clamp_id (50 + 0 * 100)) by lra.
    rewrite (clamp_id ((1 - 0) * 100)) by lra.
    rewrite (clamp_id (0.25 * 2)) by lra.
    rewrite (clamp_id (100 - 0 * 2)) by lra.
    cbn [nadd nmul]. rewrite !round_fin.
    rewrite (round_half_up_eq _ 63) by lra.
    rewrite (round_half_up_eq _ 50) by lra.
    rewrite (round_half_up_eq _ 100) by lra.
    rewrite (round_half_up_eq _ 1) by lra.
    rewrite (round_half_up_eq _ 100) by lra.
    reflexivity. }
  rewrite E. cbn [score components profitability].
  repeat split; intros H; injection H; lra.
Qed.

(** C2: for all real inputs the score and the four components are integers
    between 0 and 100, and the score is the rounding of 0.25 times each of
    the four unrounded sub-scores, every one of them clamped to [0, 100]
    before it enters the sum. *)
Theorem C2_health_index_range (c v p m : R) :
  let params := {| cagr := c; cv := v; profit_margin := p; mape := m |} in
  let h := enterpriseHealthIndex params in
  exists g s pr f : R,
    growthScore params = Fin g /\ stabilityScore params = Fin s
    /\ profitScore params = Fin pr /\ forecastScore params = Fin f
    /\ g = Spec.clamp (50 + c * 100) /\ s = Spec.clamp ((1 - v) * 100)
    /\ pr = Spec.clamp (p * 2) /\ f = Spec.clamp (100 - m * 2)
    /\ (0 <= g <= 100 /\ 0 <= s <= 100 /\ 0 <= pr <= 100 /\ 0 <= f <= 100)
    /\ score h
       = Fin (IZR (Spec.round_half_up
                     (0.25 * g + 0.25 * s + 0.25 * pr + 0.25 * f)))
    /\ growth (components h) = Fin (IZR (Spec.round_half_up g))
    /\ stability (components h) = Fin (IZR (Spec.round_half_up s))
    /\ profitability (components h) = Fin (IZR (Spec.round_half_up pr))
    /\ forecast_reliability (components h) = Fin (IZR (Spec.round_half_up f))
    /\ (0 <= Spec.round_half_up
               (0.25 * g + 0.25 * s + 0.25 * pr + 0.25 * f) <= 100)%Z
    /\ (0 <= Spec.round_half_up g <= 100)%Z
    /\ (0 <= Spec.round_half_up s <= 100)%Z
    /\ (0 <= Spec.round_half_up pr <= 100)%Z
    /\ (0 <= Spec.round_half_up f <= 100)%Z.
Proof.
  intros params h.
  pose proof (clamp_bounds (50 + c * 100)) as Bg.
  pose proof (clamp_bounds ((1 - v) * 100)) as Bs.
  pose proof (clamp_bounds (p * 2)) as Bp.
  pose proof (clamp_bounds (100 - m * 2)) as Bf.
  exists (Spec.clamp (50 + c * 100)), (Spec.clamp ((1 - v) * 100)),
         (Spec.clamp (p * 2)), (Spec.clamp (100 - m * 2)).
  repeat split; try reflexivity; try tauto;
    try (apply round_half_up_bounds; lra).
Qed.

(** ** Finite numbers: the operators on [Fin] *)

Lemma ndiv_fin (x y : R) : y <> 0 -> (Fin x / Fin y)%num = Fin (x / y).
Proof.
  intros Hy. unfold ndiv. destruct (Req_dec_T y 0); [contradiction | reflexivity].
Qed.

Lemma ndiv_zero (x : R) : (Fin x / Fin 0)%num = NaN.
Proof.
  unfold ndiv. destruct (Req_dec_T 0 0); [reflexivity | contradiction].
Qed.

Lemma strict_eq_fin (x y : R) : strict_eq (Fin x) (Fin y) = true <-> x = y.
Proof.
  unfold strict_eq. destruct (Req_dec_T x y); split; congruence.
Qed.

Lemma strict_eq_refl (x : R) : strict_eq (Fin x) (Fin x) = true.
Proof. apply strict_eq_fin. reflexivity. Qed.

Lemma strict_eq_neq (x y : R) : x <> y -> strict_eq (Fin x) (Fin y) = false.
Proof.
  intros H. unfold strict_eq. destruct (Req_dec_T x y); congruence.
Qed.

Lemma num_gt_fin (x y : R) : num_gt (Fin x) (Fin y) = true <-> x > y.
Proof.
  unfold num_gt, num_lt. destruct (Rlt_dec y x); split; intros; try lra; congruence.
Qed.

Lemma or_else_fin (x : R) : or_else (Fin x) 0 = Fin x.
Proof.
  unfold or_else, truthy. destruct (Req_dec_T x 0); congruence.
Qed.

Lemma sqrt_fin (x : R) : 0 <= x -> Math.sqrt (Fin x) = Fin (sqrt x).
Proof.
  intros H. unfold Math.sqrt. destruct (Rlt_dec x 0); [lra | reflexivity].
Qed.

Lemma INR_length_pos {A : Type} (l : list A) : l <> [] -> 0 < INR (length l).
Proof.
  destruct l; [congruence | intros _]. apply lt_0_INR. simpl. lia.
Qed.

(** ** Arrays of finite numbers *)

Lemma Forall_finite_map (l : list num) :
  Forall finite l -> exists rs, l = map Fin rs.
Proof.
  induction 1 as [| a l [r ->] _ [rs ->]].
  - exists []. reflexivity.
  - exists (r :: rs). reflexivity.
Qed.

Lemma Forall_finite_fin (rs : list R) : Forall finite (map Fin rs).
Proof.
  induction rs; simpl; constructor; auto. eexists; reflexivity.
Qed.

Lemma get_fin (l : list R) (i : nat) :
  (i < length l)%nat -> get (map Fin l) i = Fin (nth i l 0).
Proof.
  intros H. unfold get.
  rewrite (nth_indep _ NaN (Fin 0)) by (rewrite length_map; exact H).
  apply map_nth.
Qed.

Lemma get_finite (l : list num) (i : nat) :
  Forall finite l -> (i < length l)%nat -> finite (get l i).
Proof.
  intros Hl Hi. destruct (Forall_finite_map l Hl) as [rs ->].
  rewrite length_map in Hi. rewrite get_fin by exact Hi. eexists; reflexivity.
Qed.

Lemma fold_add_fin (l : list R) (a : R) :
  fold_left nadd (map Fin l) (Fin a) = Fin (a + Spec.Rsum l).
Proof.
  revert a. induction l as [| v l IH]; intros a; simpl.
  - f_equal. lra.
  - rewrite IH. f_equal. lra.
Qed.

Lemma sum_fin (l : list R) : sum (map Fin l) = Fin (Spec.Rsum l).
Proof. unfold sum. rewrite fold_add_fin. f_equal. lra. Qed.

Lemma Rmean_nil : Spec.Rmean [] = 0.
Proof. unfold Spec.Rmean. simpl. unfold Rdiv. apply Rmult_0_l. Qed.

Lemma mean_fin (l : list R) : mean (map Fin l) = Fin (Spec.Rmean l).
Proof.
  unfold mean. rewrite length_map.
  destruct l as [| v l].
  - simpl. rewrite Rmean_nil. reflexivity.
  - cbn [length Nat.eqb]. rewrite sum_fin. unfold len. rewrite length_map.
    rewrite ndiv_fin; [reflexivity |].
    apply Rgt_not_eq. apply INR_length_pos. discriminate.
Qed.

Lemma Rsum_nonneg (l : list R) : Forall (fun v => 0 <= v) l -> 0 <= Spec.Rsum l.
Proof. induction 1; simpl; lra. Qed.

Lemma sq_dev_nonneg (l : list R) : 0 <= Spec.sq_dev l.
Proof.
  unfold Spec.sq_dev. apply Rsum_nonneg. apply Forall_map.
  apply Forall_forall. intros v _. cbv beta.
  apply (Rle_0_sqr (v - Spec.Rmean l)).
Qed.

Lemma pop_variance_nonneg (l : list R) : 0 <= Spec.pop_variance l.
Proof.
  unfold Spec.pop_variance. destruct l as [| v l].
  - unfold Spec.sq_dev. simpl. unfold Rdiv. rewrite Rmult_0_l. lra.
  - apply Rmult_le_pos; [apply sq_dev_nonneg |].
    apply Rlt_le, Rinv_0_lt_compat, INR_length_pos. discriminate.
Qed.

Lemma pop_stddev_nonneg (l : list R) : 0 <= Spec.pop_stddev l.
Proof. apply sqrt_pos. Qed.

(** The population standard deviation of fewer than two values is 0. *)
Lemma pop_stddev_short (l : list R) :
  (length l < 2)%nat -> Spec.pop_stddev l = 0.
Proof.
  intros H. unfold Spec.pop_stddev, Spec.pop_variance, Spec.sq_dev.
  destruct l as [| v [| w l]]; simpl in H; try lia.
  - simpl. unfold Rdiv. rewrite Rmult_0_l. apply sqrt_0.
  - unfold Spec.Rmean. simpl.
    replace ((v - (v + 0) / 1) * (v - (v + 0) / 1) + 0) with 0 by (field).
    unfold Rdiv. rewrite Rmult_0_l. apply sqrt_0.
Qed.

Lemma fold_sq_fin (l : list R) (m a : R) :
  fold_left (fun s v => s + nsqr (v - Fin m))%num (map Fin l) (Fin a)
  = Fin (a + Spec.Rsum (map (fun v => (v - m) * (v - m)) l)).
Proof.
  revert a. induction l as [| v l IH]; intros a; simpl.
  - f_equal. lra.
  - rewrite IH. f_equal. lra.
Qed.

(** On real inputs [stdDev] is the population standard deviation. *)
Lemma stdDev_fin (l : list R) : stdDev (map Fin l) = Fin (Spec.pop_stddev l).
Proof.
  unfold stdDev. rewrite length_map.
  destruct (Nat.ltb_spec (length l) 2) as [Hlt | Hge].
  - rewrite pop_stddev_short by exact Hlt. reflexivity.
  - rewrite mean_fin, fold_sq_fin. unfold len. rewrite length_map.
    assert (Hn : 0 < INR (length l)).
    { apply INR_length_pos. destruct l; simpl in Hge; [lia | discriminate]. }
    rewrite ndiv_fin by lra.
    rewrite Rplus_0_l.
    change (Spec.Rsum (map (fun v => (v - Spec.Rmean l) * (v - Spec.Rmean l)) l)
            / INR (length l)) with (Spec.pop_variance l).
    apply sqrt_fin. apply pop_variance_nonneg.
Qed.

(** ** Lists and loops *)

Lemma map_nth_seq {A : Type} (d : A) (l : list A) :
  l = map (fun i => nth i l d) (seq 0 (length l)).
Proof.
  apply (nth_ext _ _ d d).
  - rewrite length_map, length_seq. reflexivity.
  - intros n Hn. set (f := fun i => nth i l d).
    rewrite (nth_indep (map f (seq 0 (length l))) d (f 0%nat))
      by (rewrite length_map, length_seq; exact Hn).
    rewrite map_nth. rewrite seq_nth by exact Hn. reflexivity.
Qed.

Lemma combine_seq {A : Type} (d : A) (l : list A) (s : nat) :
  combine (seq s (length l)) l
  = map (fun i => (i, nth (i - s) l d)) (seq s (length l)).
Proof.
  revert s. induction l as [| v l IH]; intros s; [reflexivity |].
  cbn [length seq combine map]. f_equal.
  - rewrite Nat.sub_diag. reflexivity.
  - rewrite IH. apply map_ext_in. intros i Hi. apply in_seq in Hi.
    replace (i - s)%nat with (S (i - S s)) by lia. reflexivity.
Qed.

(** [mapi] visits the indexes 0 .. length-1 in order. *)
Lemma mapi_seq {A B : Type} (d : A) (f : A -> nat -> B) (l : list A) :
  mapi f l = map (fun i => f (nth i l d) i) (seq 0 (length l)).
Proof.
  unfold mapi. rewrite (combine_seq d), map_map.
  apply map_ext. intros i. cbn [fst snd]. rewrite Nat.sub_0_r. reflexivity.
Qed.

Lemma length_mapi {A B : Type} (f : A -> nat -> B) (l : list A) :
  length (mapi f l) = length l.
Proof.
  unfold mapi. rewrite length_map, length_combine, length_seq. lia.
Qed.

(** A loop that pushes one element per iteration builds a [map]. *)
Lemma fold_push {A B : Type} (body : list B -> A -> list B) (f : A -> B)
      (xs : list A) (acc : list B) :
  (forall r x, In x xs -> body r x = r ++ [f x]) ->
  fold_left body xs acc = acc ++ map f xs.
Proof.
  revert acc. induction xs as [| x xs IH]; intros acc H; simpl.
  - rewrite app_nil_r. reflexivity.
  - rewrite H by (left; reflexivity).
    rewrite IH by (intros; apply H; right; assumption).
    rewrite <- app_assoc. reflexivity.
Qed.

(** A loop that pushes the indexes passing a test builds a [filter]. *)
Lemma fold_push_if {A : Type} (body : list A -> A -> list A) (c : A -> bool)
      (xs acc : list A) :
  (forall r x, body r x = if c x then r ++ [x] else r) ->
  fold_left body xs acc = acc ++ filter c xs.
Proof.
  intros H. revert acc. induction xs as [| x xs IH]; intros acc; simpl.
  - rewrite app_nil_r. reflexivity.
  - rewrite H, IH. destruct (c x).
    + rewrite <- app_assoc. reflexivity.
    + reflexivity.
Qed.

Lemma Rsum_map_ext {A : Type} (f g : A -> R) (l : list A) :
  (forall x, In x l -> f x = g x) ->
  Spec.Rsum (map f l) = Spec.Rsum (map g l).
Proof. intros H. f_equal. apply map_ext_in. exact H. Qed.

Lemma Rsum_map_nth (f : R -> R) (l : list R) :
  Spec.Rsum (map f l)
  = Spec.Rsum (map (fun i => f (nth i l 0)) (seq 0 (length l))).
Proof.
  rewrite (map_nth_seq 0 l) at 1. rewrite map_map. reflexivity.
Qed.

Lemma rel_index_inside (n : nat) (k : nat) :
  (k <= n)%nat -> rel_index n (Z.of_nat k) = k.
Proof.
  intros H. unfold rel_index.
  destruct (Z.ltb_spec (Z.of_nat k) 0); [lia |].
  rewrite Nat2Z.id. lia.
Qed.

(** [l.slice(a, b)] for 0 <= a <= b <= length. *)
Lemma slice_inside {A : Type} (l : list A) (a b : nat) :
  (a <= b <= length l)%nat ->
  slice l (Z.of_nat a) (Z.of_nat b) = firstn (b - a) (skipn a l).
Proof.
  intros H. unfold slice. rewrite !rel_index_inside by lia. reflexivity.
Qed.

(** ** 14. Sensitivity simulation *)

(** C6: on every real baseline the simulator returns the seven scenarios of
    the catalogue in its order (Base, +5% price, -5% price, +10% quantity,
    -10% quantity, both up, both down); each estimated revenue is
    basePrice (1 + dp) * baseQuantity (1 + dq), each estimated profit is that
    revenue minus totalCost, and the revenue of Base is
    basePrice * baseQuantity. *)
Theorem C6_sensitivity_scenarios (baseRevenue baseQuantity basePrice totalCost : R) :
  let rev := fun dp dq : R => basePrice * (1 + dp) * (baseQuantity * (1 + dq)) in
  let res := sensitivitySimulation baseRevenue baseQuantity basePrice totalCost in
  length res = 7%nat
  /\ map scenario res
     = [ "Base"; "+5% Price"; "-5% Price"; "+10% Qty"; "-10% Qty";
         "+5% Price, +10% Qty"; "-5% Price, -10% Qty" ]%string
  /\ map (fun r => (price_change r, quantity_change r)) res
     = [ (Fin (0 * 100), Fin (0 * 100));
         (Fin (0.05 * 100), Fin (0 * 100));
         (Fin (-0.05 * 100), Fin (0 * 100));
         (Fin (0 * 100), Fin (0.10 * 100));
         (Fin (0 * 100), Fin (-0.10 * 100));
         (Fin (0.05 * 100), Fin (0.10 * 100));
         (Fin (-0.05 * 100), Fin (-0.10 * 100)) ]
  /\ map estimated_revenue res
     = [ Fin (rev 0 0); Fin (rev 0.05 0); Fin (rev (-0.05) 0);
         Fin (rev 0 0.10); Fin (rev 0 (-0.10));
         Fin (rev 0.05 0.10); Fin (rev (-0.05) (-0.10)) ]
  /\ map estimated_profit res
     = [ Fin (rev 0 0 - totalCost); Fin (rev 0.05 0 - totalCost);
         Fin (rev (-0.05) 0 - totalCost);
         Fin (rev 0 0.10 - totalCost); Fin (rev 0 (-0.10) - totalCost);
         Fin (rev 0.05 0.10 - totalCost);
         Fin (rev (-0.05) (-0.10) - totalCost) ]
  /\ estimated_revenue (hd {| scenario := EmptyString; price_change := NaN;
                              quantity_change := NaN; estimated_revenue := NaN;
                              estimated_profit := NaN |} res)
     = Fin (basePrice * baseQuantity).
Proof.
  intros rev res. subst rev res.
  repeat split; try reflexivity.
  cbn. f_equal. ring.
Qed.

(** ** 1. Linear regression on real inputs *)

Lemma length_indexes (n : nat) : length (Spec.indexes n) = n.
Proof. unfold Spec.indexes. rewrite length_map, length_seq. reflexivity. Qed.

Lemma nth_indexes (n i : nat) : (i < n)%nat -> nth i (Spec.indexes n) 0 = INR i.
Proof.
  intros H. unfold Spec.indexes.
  change 0 with (INR 0). rewrite map_nth, seq_nth by exact H. reflexivity.
Qed.

Lemma xs_fin (l : list R) :
  mapi (fun (_ : num) i => Fin (INR i)) (map Fin l)
  = map Fin (Spec.indexes (length l)).
Proof.
  rewrite (mapi_seq NaN), length_map. unfold Spec.indexes.
  rewrite map_map. reflexivity.
Qed.

Lemma ss_loop_fin (l : list R) (xm ym : R) (idx : list nat) (a b c : R) :
  Forall (fun i => (i < length l)%nat) idx ->
  fold_left (ss_step (map Fin (Spec.indexes (length l))) (map Fin l) xm ym)
            idx {| ssxy := a; ssxx := b; ssyy := c |}
  = {| ssxy := Fin (a + Spec.Rsum (map (fun i => (INR i - xm) * (nth i l 0 - ym)) idx));
       ssxx := Fin (b + Spec.Rsum (map (fun i => (INR i - xm) * (INR i - xm)) idx));
       ssyy := Fin (c + Spec.Rsum (map (fun i => (nth i l 0 - ym) * (nth i l 0 - ym)) idx)) |}.
Proof.
  intros H. revert a b c.
  induction H as [| i idx Hi _ IH]; intros a b c; cbn [fold_left map Spec.Rsum fold_right].
  - rewrite !Rplus_0_r. reflexivity.
  - unfold ss_step at 2. cbn [ssxy ssxx ssyy].
    rewrite (get_fin l i Hi).
    rewrite (get_fin (Spec.indexes (length l)) i)
      by (rewrite length_indexes; exact Hi).
    rewrite nth_indexes by exact Hi.
    cbn [nadd nsub nmul nsqr]. rewrite IH.
    unfold Spec.Rsum. f_equal; f_equal; lra.
Qed.

Lemma seq_bounded (n : nat) : Forall (fun i => (i < n)%nat) (seq 0 n).
Proof. apply Forall_forall. intros i Hi. apply in_seq in Hi. lia. Qed.

(** With two points or more the positions 0 .. n-1 are not all equal. *)
Lemma Sxx_pos (n : nat) : (2 <= n)%nat -> 0 < Spec.Sxx n.
Proof.
  intros H. unfold Spec.Sxx.
  destruct n as [| [| n]]; try lia.
  cbn [seq map Spec.Rsum fold_right].
  set (m := Spec.xbar (S (S n))).
  assert (Hrest : 0 <= Spec.Rsum
            (map (fun i => (INR i - m) * (INR i - m)) (seq 2 n))).
  { apply Rsum_nonneg, Forall_map, Forall_forall. intros i _. cbv beta.
    apply (Rle_0_sqr (INR i - m)). }
  change (INR 0) with 0. change (INR 1) with 1.
  pose proof (Rle_0_sqr (0 - m)) as H0. pose proof (Rle_0_sqr (1 - m)) as H1.
  unfold Rsqr in H0, H1. unfold Spec.Rsum in Hrest.
  destruct (Rle_lt_dec m (/ 2)); nra.
Qed.

Lemma Syy_sq_dev (l : list R) : Spec.Syy l = Spec.sq_dev l.
Proof.
  unfold Spec.Syy, Spec.sq_dev.
  rewrite (Rsum_map_nth (fun v => (v - Spec.Rmean l) * (v - Spec.Rmean l)) l).
  reflexivity.
Qed.

(** On two or more real values [linearRegression] is the least-squares fit. *)
Lemma linearRegression_fin (l : list R) :
  (2 <= length l)%nat ->
  linearRegression (map Fin l)
  = {| slope := Fin (Spec.ols_slope l);
       intercept := Fin (Spec.ols_intercept l);
       predict := fun x => (Fin (Spec.ols_slope l) * x
                            + Fin (Spec.ols_intercept l))%num;
       r_squared := Fin (Spec.ols_r_squared l) |}.
Proof.
  intros Hn. unfold linearRegression. rewrite length_map.
  destruct (Nat.ltb_spec (length l) 2) as [Hlt | _]; [lia |].
  cbv zeta.
  assert (Hpos : 0 < INR (length l)).
  { apply lt_0_INR. lia. }
  rewrite xs_fin, !sum_fin. unfold len. rewrite length_map.
  rewrite !ndiv_fin by lra.
  assert (Hx : Spec.Rsum (Spec.indexes (length l)) / INR (length l)
               = Spec.xbar (length l)).
  { unfold Spec.xbar, Spec.Rmean. rewrite length_indexes. reflexivity. }
  rewrite Hx.
  change (Spec.Rsum l / INR (length l)) with (Spec.Rmean l).
  change (Fin 0) with (Fin 0).
  rewrite (ss_loop_fin l _ _ (seq 0 (length l)) 0 0 0) by apply seq_bounded.
  cbn [ssxy ssxx ssyy]. rewrite !Rplus_0_l.
  change (Spec.Rsum (map (fun i => (INR i - Spec.xbar (length l))
                                   * (nth i l 0 - Spec.Rmean l))
                         (seq 0 (length l)))) with (Spec.Sxy l).
  change (Spec.Rsum (map (fun i => (INR i - Spec.xbar (length l))
                                   * (INR i - Spec.xbar (length l)))
                         (seq 0 (length l)))) with (Spec.Sxx (length l)).
  change (Spec.Rsum (map (fun i => (nth i l 0 - Spec.Rmean l)
                                   * (nth i l 0 - Spec.Rmean l))
                         (seq 0 (length l)))) with (Spec.Syy l).
  pose proof (Sxx_pos (length l) Hn) as Hxx.
  rewrite strict_eq_neq by lra.
  rewrite ndiv_fin by lra.
  change (Spec.Sxy l / Spec.Sxx (length l)) with (Spec.ols_slope l).
  cbn [nsub nmul nsqr].
  change (Spec.Rmean l - Spec.ols_slope l * Spec.xbar (length l))
    with (Spec.ols_intercept l).
  unfold Spec.ols_r_squared.
  destruct (Req_dec_T (Spec.Syy l) 0) as [Hy | Hy].
  - rewrite Hy, strict_eq_refl. reflexivity.
  - rewrite strict_eq_neq by exact Hy.
    rewrite ndiv_fin; [reflexivity |].
    apply Rmult_integral_contrapositive. split; [lra | exact Hy].
Qed.

(** With fewer than two values the fit is the flat line at the single value,
    or at 0 when there is none. *)
Lemma linearRegression_short (l : list R) :
  (length l < 2)%nat ->
  linearRegression (map Fin l)
  = {| slope := Fin 0;
       intercept := Fin (nth 0 l 0);
       predict := fun _ => Fin (nth 0 l 0);
       r_squared := Fin 0 |}.
Proof.
  intros Hn. unfold linearRegression. rewrite length_map.
  destruct (Nat.ltb_spec (length l) 2) as [_ | Hge]; [| lia].
  destruct l as [| v l].
  - reflexivity.
  - cbn [map get nth]. rewrite or_else_fin. reflexivity.
Qed.

Lemma predict_fin (l : list R) (x : R) :
  predict (linearRegression (map Fin l)) (Fin x) = Fin (Spec.fitted l x).
Proof.
  unfold Spec.fitted. destruct (Nat.ltb_spec (length l) 2) as [Hlt | Hge].
  - rewrite linearRegression_short by exact Hlt. reflexivity.
  - rewrite linearRegression_fin by exact Hge. reflexivity.
Qed.

(** C9: for every n >= 2 the fit of the series 0, 1, ..., n-1 has slope 1,
    intercept 0 and r_squared 1, exactly, in real arithmetic. *)
Theorem C9_regression_of_identity (n : nat) :
  (2 <= n)%nat ->
  let reg := linearRegression (map (fun i => Fin (INR i)) (seq 0 n)) in
  slope reg = Fin 1 /\ intercept reg = Fin 0 /\ r_squared reg = Fin 1.
Proof.
  intros Hn reg. subst reg.
  rewrite <- (map_map INR Fin). fold (Spec.indexes n).
  rewrite linearRegression_fin by (rewrite length_indexes; exact Hn).
  cbn [slope intercept r_squared].
  pose proof (Sxx_pos n Hn) as Hxx.
  assert (Hm : Spec.Rmean (Spec.indexes n) = Spec.xbar n) by reflexivity.
  assert (Hxy : Spec.Sxy (Spec.indexes n) = Spec.Sxx n).
  { unfold Spec.Sxy, Spec.Sxx. rewrite length_indexes, Hm.
    apply Rsum_map_ext. intros i Hi. apply in_seq in Hi.
    rewrite nth_indexes by lia. reflexivity. }
  assert (Hyy : Spec.Syy (Spec.indexes n) = Spec.Sxx n).
  { unfold Spec.Syy, Spec.Sxx. rewrite length_indexes, Hm.
    apply Rsum_map_ext. intros i Hi. apply in_seq in Hi.
    rewrite nth_indexes by lia. reflexivity. }
  assert (Hs : Spec.ols_slope (Spec.indexes n) = 1).
  { unfold Spec.ols_slope. rewrite Hxy, length_indexes. field. lra. }
  repeat split; f_equal.
  - exact Hs.
  - unfold Spec.ols_intercept. rewrite Hs, Hm, length_indexes. ring.
  - unfold Spec.ols_r_squared. rewrite Hyy, Hxy, length_indexes.
    destruct (Req_dec_T (Spec.Sxx n) 0); [lra |]. field. lra.
Qed.

Lemma C9_regression_of_identity_witness :
  (2 <= 3)%nat
  /\ slope (linearRegression (map (fun i => Fin (INR i)) (seq 0 3))) = Fin 1
  /\ intercept (linearRegression (map (fun i => Fin (INR i)) (seq 0 3))) = Fin 0
  /\ r_squared (linearRegression (map (fun i => Fin (INR i)) (seq 0 3))) = Fin 1.
Proof.
  split; [lia |]. apply (C9_regression_of_identity 3). lia.
Defined.

(** ** Neutral defaults *)

(** The cases of the policy that a length or the computed mean decides: the
    mean of the empty sequence is 0; the coefficient of variation is 0 when
    the mean comes out as 0; the correlation is 0 with fewer than two paired
    points; a regression on fewer than two values has slope 0, r_squared 0
    and predicts, at every argument, the single value (0 for the empty
    input). *)
Lemma neutral_defaults :
  mean [] = Fin 0
  /\ (forall values : list num,
        mean values = Fin 0 -> coefficientOfVariation values = Fin 0)
  /\ (forall xs ys : list num,
        (Nat.min (length xs) (length ys) < 2)%nat ->
        pearsonCorrelation xs ys = Fin 0)
  /\ (forall values : list R,
        (length values < 2)%nat ->
        let reg := linearRegression (map Fin values) in
        slope reg = Fin 0 /\ r_squared reg = Fin 0
        /\ intercept reg = Fin (nth 0 values 0)
        /\ forall x : num, predict reg x = Fin (nth 0 values 0)).
Proof.
  split; [reflexivity |]. split; [| split].
  - intros values H. unfold coefficientOfVariation. rewrite H.
    rewrite strict_eq_refl. reflexivity.
  - intros xs ys H. unfold pearsonCorrelation.
    destruct (Nat.ltb_spec (Nat.min (length xs) (length ys)) 2);
      [reflexivity | lia].
  - intros values H reg. subst reg.
    rewrite linearRegression_short by exact H.
    repeat split; reflexivity.
Qed.

Section NeutralDefaultsBinary64.

Import PrimFloat.
Local Open Scope float_scope.
Set Warnings "-inexact-float".

(** C7: the zero-variance case of the policy is not kept.  The guard of
    [pearsonCorrelation] compares the computed sums of squared deviations
    with 0, and on a constant series whose mean is rounded they are not 0:
    the mean of [0.1, 0.1, 0.1] is 0.10000000000000002, and
    [pearsonCorrelation([0.1, 0.1, 0.1], [0.7, 0.7, 0.7])] is -1, not 0.
    Against a series that varies, the constant series of 3.6 does not give
    0 either.  When the mean of the constant side is computed exactly, as
    for [3, 3, 3], the guard does return 0. *)
Theorem C7_pearson_zero_variance_guard :
  Binary64.mean [0.1; 0.1; 0.1] = 0.10000000000000002
  /\ Binary64.pearsonCorrelation [0.1; 0.1; 0.1] [0.7; 0.7; 0.7] = -1
  /\ eqb (Binary64.pearsonCorrelation [3; 5; 2; 4; 1; 6; 2]
                                      [3.6; 3.6; 3.6; 3.6; 3.6; 3.6; 3.6]) 0
     = false
  /\ Binary64.pearsonCorrelation [3; 3; 3] [0.1; 0.2; 0.4] = 0.
Proof. repeat split; vm_compute; reflexivity. Qed.

End NeutralDefaultsBinary64.

(** With a window <= 0 the slice of the smoothing loops is empty. *)
Lemma nonpositive_window_slice {A : Type} (values : list A) (w : Z) (i : nat) :
  (w <= 0)%Z ->
  slice values (Z.of_nat i - w + 1) (Z.of_nat i + 1) = [].
Proof.
  intros Hw. unfold slice, rel_index.
  destruct (Z.ltb_spec (Z.of_nat i - w + 1) 0); [lia |].
  destruct (Z.ltb_spec (Z.of_nat i + 1) 0); [lia |].
  replace (Nat.min (Z.to_nat (Z.of_nat i + 1)) (length values)
           - Nat.min (Z.to_nat (Z.of_nat i - w + 1)) (length values))%nat
    with 0%nat by lia.
  reflexivity.
Qed.

(** The division by a zero window is 0/0. *)
Lemma ma_entry_window_zero (values : list num) (i : nat) :
  ma_entry values 0 i = NaN.
Proof.
  unfold ma_entry.
  destruct (Z.ltb_spec (Z.of_nat i) (0 - 1)); [reflexivity |].
  rewrite nonpositive_window_slice by lia. apply ndiv_zero.
Qed.

(** ** Worked examples

    Evaluation on concrete inputs: compute the list structure, then decide
    the comparisons between constants. *)

Ltac decide_consts :=
  match goal with
  | |- context [Req_dec_T ?a ?b] =>
      destruct (Req_dec_T a b); [try (exfalso; lra) | try (exfalso; lra)]
  | |- context [Rlt_dec ?a ?b] =>
      destruct (Rlt_dec a b); [try (exfalso; lra) | try (exfalso; lra)]
  end.

Ltac js_eval := simpl; repeat (decide_consts; simpl).

Example movingAverage_example :
  movingAverage (map Fin [1; 2; 3]) 2 = [NaN; Fin 1.5; Fin 2.5].
Proof.
  unfold movingAverage. js_eval. repeat f_equal; lra.
Qed.

Example movingAverage_window_zero :
  movingAverage (map Fin [1; 2; 3]) 0 = [NaN; NaN; NaN].
Proof.
  unfold movingAverage. js_eval. reflexivity.
Qed.

Example exponentialMovingAverage_example :
  exponentialMovingAverage (map Fin [1; 2; 3]) 0.5
  = [Fin 1; Fin 1.5; Fin 2.25].
Proof.
  unfold exponentialMovingAverage. js_eval. repeat f_equal; lra.
Qed.

Example weightedMovingAverage_example :
  weightedMovingAverage (map Fin [1; 2; 3]) 2
  = [NaN; Fin (5 / 3); Fin (8 / 3)].
Proof.
  unfold weightedMovingAverage. js_eval. repeat f_equal; lra.
Qed.

Example linearRegression_example :
  let reg := linearRegression (map Fin [1; 3; 5]) in
  slope reg = Fin 2 /\ intercept reg = Fin 1 /\ r_squared reg = Fin 1
  /\ predict reg (Fin 3) = Fin 7.
Proof.
  unfold linearRegression, mapi. js_eval. repeat split; f_equal; lra.
Qed.

Example linearRegression_constant_series :
  let reg := linearRegression (map Fin [100; 100; 100]) in
  slope reg = Fin 0 /\ intercept reg = Fin 100 /\ r_squared reg = Fin 0.
Proof.
  unfold linearRegression, mapi. js_eval; repeat split; f_equal; lra.
Qed.

(** Given the margin in percentage points the same code yields 50 and 75:
    the factor 2 fits a percentage, while the callers pass a fraction. *)
Example enterpriseHealthIndex_percent_margin :
  enterpriseHealthIndex {| cagr := 0; cv := 0; profit_margin := 25; mape := 0 |}
  = {| score := 75;
       components := {| growth := 50; stability := 100;
                        profitability := 50; forecast_reliability := 100 |} |}.
Proof.
  unfold enterpriseHealthIndex.
  destruct (sub_scores_fin 0 0 25 0) as (Hg & Hs & Hp & Hf).
  cbv zeta in Hg, Hs, Hp, Hf. rewrite Hg, Hs, Hp, Hf.
  rewrite !clamp_id by lra. cbn [nadd nmul]. rewrite !round_fin.
  rewrite (round_half_up_eq _ 75) by lra.
  rewrite (round_half_up_eq _ 50) by lra.
  rewrite (round_half_up_eq _ 100) by lra.
  rewrite (round_half_up_eq _ 50) by lra.
  rewrite (round_half_up_eq _ 100) by lra.
  reflexivity.
Qed.

(** ** 2-4. Smoothing models *)

Lemma finite_fin (r : R) : finite (Fin r).
Proof. exists r. reflexivity. Qed.

Lemma finite_add (a b : num) : finite a -> finite b -> finite (a + b)%num.
Proof. intros [x ->] [y ->]. eexists; reflexivity. Qed.

Lemma finite_sub (a b : num) : finite a -> finite b -> finite (a - b)%num.
Proof. intros [x ->] [y ->]. eexists; reflexivity. Qed.


Lemma movingAverage_entries (values : list num) (window : Z) :
  movingAverage values window
  = map (ma_entry values window) (seq 0 (length values)).
Proof.
  unfold movingAverage.
  rewrite (fold_push _ (ma_entry values window)); [reflexivity |].
  intros r i _. unfold ma_entry.
  destruct (Z.of_nat i <? window - 1)%Z; reflexivity.
Qed.




(** A window [w >= 1] that ends at position [i >= w - 1] inside the series
    is the slice of the [w] values that end at [i]. *)
Lemma slice_window_fin (l : list R) (w : Z) (i : nat) :
  (1 <= w)%Z -> (w - 1 <= Z.of_nat i)%Z -> (i < length l)%nat ->
  slice (map Fin l) (Z.of_nat i - w + 1) (Z.of_nat i + 1)
  = map Fin (firstn (Z.to_nat w) (skipn (i + 1 - Z.to_nat w) l))
  /\ length (firstn (Z.to_nat w) (skipn (i + 1 - Z.to_nat w) l)) = Z.to_nat w.
Proof.
  intros Hw Hi Hn.
  replace (Z.of_nat i - w + 1)%Z with (Z.of_nat (i + 1 - Z.to_nat w)) by lia.
  replace (Z.of_nat i + 1)%Z with (Z.of_nat (i + 1)) by lia.
  rewrite slice_inside by (rewrite length_map; lia).
  replace (i + 1 - (i + 1 - Z.to_nat w))%nat with (Z.to_nat w) by lia.
  rewrite skipn_map, firstn_map. split; [reflexivity |].
  rewrite length_firstn, length_skipn. lia.
Qed.










(** ** Forecast *)


Lemma filter_defined_finite (l : list num) :
  Forall finite (filter (fun v => negb (isNaN v)) l).
Proof.
  apply Forall_forall. intros a Ha. apply filter_In in Ha as [_ Ha].
  destruct a as [| r]; [discriminate | apply finite_fin].
Qed.

Lemma filter_defined_id (l : list num) :
  Forall finite l -> filter (fun v => negb (isNaN v)) l = l.
Proof.
  induction 1 as [| a l [r ->] _ IH]; [reflexivity |].
  cbn [filter isNaN negb]. rewrite IH. reflexivity.
Qed.







Lemma residuals_fin (l : list R) :
  mapi (fun v i => (v - predict (linearRegression (map Fin l)) (Fin (INR i)))%num)
       (map Fin l)
  = map Fin (Spec.residuals l).
Proof.
  rewrite (mapi_seq NaN), length_map. unfold Spec.residuals.
  rewrite map_map. apply map_ext_in. intros i Hi. apply in_seq in Hi.
  change (nth i (map Fin l) NaN) with (get (map Fin l) i).
  rewrite get_fin by lia. rewrite predict_fin. reflexivity.
Qed.


(** ** Structural breaks *)

Lemma in_range (lo hi i : Z) : In i (range lo hi) <-> (lo <= i < hi)%Z.
Proof.
  unfold range. rewrite in_map_iff. split.
  - intros (k & <- & Hk). apply in_seq in Hk. lia.
  - intros H. exists (Z.to_nat (i - lo)). split; [lia |]. apply in_seq. lia.
Qed.

Lemma range_sorted (lo : Z) (s m : nat) :
  StronglySorted Z.lt (map (fun k => (lo + Z.of_nat k)%Z) (seq s m)).
Proof.
  revert s. induction m as [| m IH]; intros s; cbn [seq map]; constructor.
  - apply IH.
  - apply Forall_map, Forall_forall. intros k Hk. apply in_seq in Hk. lia.
Qed.

Lemma filter_sorted {A : Type} (R : A -> A -> Prop) (c : A -> bool) (l : list A) :
  StronglySorted R l -> StronglySorted R (filter c l).
Proof.
  induction 1 as [| a l Hs IH Ha]; cbn [filter]; [constructor |].
  destruct (c a); [| exact IH].
  constructor; [exact IH |].
  apply Forall_forall. intros x Hx. apply filter_In in Hx as [Hx _].
  rewrite Forall_forall in Ha. apply Ha. exact Hx.
Qed.

Lemma firstn_skipn_nth {A : Type} (d : A) (l : list A) (a k : nat) :
  (a + k <= length l)%nat ->
  firstn k (skipn a l) = map (fun j => nth (a + j) l d) (seq 0 k).
Proof.
  intros H. apply (nth_ext _ _ d d).
  - rewrite length_firstn, length_skipn, length_map, length_seq. lia.
  - intros j Hj. rewrite length_firstn, length_skipn in Hj.
    rewrite nth_firstn. destruct (Nat.ltb_spec j k); [| lia].
    rewrite nth_skipn.
    set (f := fun j => nth (a + j) l d).
    rewrite (nth_indep (map f (seq 0 k)) d (f 0%nat))
      by (rewrite length_map, length_seq; lia).
    rewrite map_nth, seq_nth by lia. reflexivity.
Qed.

(** The mean of the five values from position [a] on. *)
Lemma mean_window5 (l : list R) (a : nat) :
  (a + 5 <= length l)%nat ->
  mean (slice (map Fin l) (Z.of_nat a) (Z.of_nat (a + 5))) = Fin (Spec.mean5 l a).
Proof.
  intros H. rewrite slice_inside by (rewrite length_map; lia).
  replace (a + 5 - a)%nat with 5%nat by lia.
  rewrite skipn_map, firstn_map, mean_fin. f_equal.
  rewrite (firstn_skipn_nth 0) by exact H.
  unfold Spec.Rmean, Spec.mean5, Spec.Rsum. cbn [seq map fold_right length INR].
  rewrite Nat.add_0_r. lra.
Qed.

(** The two window means of the test at index [a + 5]. *)
Lemma break_windows (l : list R) (a : nat) :
  (a + 10 <= length l)%nat ->
  let i := Z.of_nat (a + 5) in
  mean (slice (map Fin l) (Z.max 0 (i - 5)) i) = Fin (Spec.mean5 l a)
  /\ mean (slice (map Fin l) i (Z.min (Z.of_nat (length l)) (i + 5)))
     = Fin (Spec.mean5 l (a + 5)).
Proof.
  intros H i. subst i. split.
  - replace (Z.max 0 (Z.of_nat (a + 5) - 5)) with (Z.of_nat a) by lia.
    apply mean_window5. lia.
  - replace (Z.min (Z.of_nat (length l)) (Z.of_nat (a + 5) + 5))
      with (Z.of_nat (a + 5 + 5)) by lia.
    apply mean_window5. lia.
Qed.

(** C5: on every real series and sensitivity, the detector returns exactly
    the indexes i with 5 <= i <= n - 6 at which the mean of the five values
    at i-5 .. i-1 and the mean of the five values at i .. i+4 differ, in
    absolute value, by more than the sensitivity times the population
    standard deviation of the whole series; they come in ascending order,
    each flagged index on its own. *)
Theorem C5_structural_breaks (values : list R) (s : R) :
  let n := Z.of_nat (length values) in
  let breaks := detectStructuralBreaks (map Fin values) s in
  (forall i : Z,
      In i breaks <->
      (5 <= i <= n - 6)%Z
      /\ Rabs (Spec.mean5 values (Z.to_nat (i - 5)) - Spec.mean5 values (Z.to_nat i))
         > s * Spec.pop_stddev values)
  /\ StronglySorted Z.lt breaks.
Proof.
  intros n breaks. subst breaks. unfold detectStructuralBreaks.
  rewrite length_map. fold n. rewrite stdDev_fin.
  rewrite (fold_push_if _
    (fun i => num_gt
       (Math.abs (mean (slice (map Fin values) (Z.max 0 (i - 5)) i)
                  - mean (slice (map Fin values) i (Z.min n (i + 5)))))
       (Fin s * Fin (Spec.pop_stddev values))%num))
    by reflexivity.
  cbn [app]. split.
  - intros i. rewrite filter_In, in_range.
    assert (Hwin : (5 <= i < n - 5)%Z ->
              num_gt
                (Math.abs (mean (slice (map Fin values) (Z.max 0 (i - 5)) i)
                           - mean (slice (map Fin values) i (Z.min n (i + 5)))))
                (Fin s * Fin (Spec.pop_stddev values))%num = true
              <-> Rabs (Spec.mean5 values (Z.to_nat (i - 5))
                        - Spec.mean5 values (Z.to_nat i))
                  > s * Spec.pop_stddev values).
    { intros Hi.
      assert (Ha : exists a, i = Z.of_nat (a + 5) /\ (a + 10 <= length values)%nat).
      { exists (Z.to_nat (i - 5)). subst n. lia. }
      destruct Ha as (a & -> & Ha).
      destruct (break_windows values a Ha) as [HL HR].
      cbv zeta in HL, HR. subst n. rewrite HL, HR.
      replace (Z.to_nat (Z.of_nat (a + 5) - 5)) with a by lia.
      rewrite Nat2Z.id. cbn [nsub nmul Math.abs]. apply num_gt_fin. }
    split.
    + intros [Hi Hc]. split; [lia |]. apply Hwin; assumption.
    + intros [Hi Hc]. assert (Hi' : (5 <= i < n - 5)%Z) by lia.
      split; [exact Hi' |]. apply Hwin; assumption.
  - apply filter_sorted. apply range_sorted.
Qed.

(** A step from 0 to 10 after five points, in eleven points: the middle
    index, the only one with five points on each side, is flagged. *)
Lemma C5_structural_breaks_witness :
  In 5%Z (detectStructuralBreaks
            (map Fin [0; 0; 0; 0; 0; 10; 10; 10; 10; 10; 10]) 1.5)
  /\ ~ In 4%Z (detectStructuralBreaks
                 (map Fin [0; 0; 0; 0; 0; 10; 10; 10; 10; 10; 10]) 1.5).
Proof.
  destruct (C5_structural_breaks [0; 0; 0; 0; 0; 10; 10; 10; 10; 10; 10] 1.5)
    as [H _].
  split.
  - apply H. split; [simpl; lia |].
    assert (Hs : Spec.pop_stddev [0; 0; 0; 0; 0; 10; 10; 10; 10; 10; 10] < 6).
    { unfold Spec.pop_stddev. rewrite <- (sqrt_square 6) by lra.
      apply sqrt_lt_1_alt. split; [apply pop_variance_nonneg |].
      unfold Spec.pop_variance, Spec.sq_dev, Spec.Rmean, Spec.Rsum.
      simpl. lra. }
    unfold Spec.mean5. simpl.
    rewrite Rabs_left by lra. lra.
  - intros Hin. apply H in Hin. simpl in Hin. lia.
Defined.

(** ** Additive decomposition *)

Lemma update_length (l : list num) (k : nat) (f : num -> num) :
  length (update l k f) = length l.
Proof.
  unfold update. rewrite <- (firstn_skipn k l) at 3.
  rewrite !length_app. destruct (skipn k l); reflexivity.
Qed.

Lemma update_finite (l : list num) (k : nat) (f : num -> num) :
  Forall finite l -> (forall v, finite v -> finite (f v)) ->
  Forall finite (update l k f).
Proof.
  intros Hl Hf. unfold update.
  rewrite <- (firstn_skipn k l) in Hl. apply Forall_app in Hl as [H1 H2].
  apply Forall_app. split; [exact H1 |].
  destruct (skipn k l) as [| v tl]; [constructor |].
  inversion H2; subst. constructor; auto.
Qed.

Lemma trends_fin (l : list R) :
  mapi (fun (_ : num) i => predict (linearRegression (map Fin l)) (Fin (INR i)))
       (map Fin l)
  = map Fin (map (fun i => Spec.fitted l (INR i)) (seq 0 (length l))).
Proof.
  rewrite (mapi_seq NaN), length_map, map_map.
  apply map_ext. intros i. apply predict_fin.
Qed.

Lemma day_number_lt (d : weekday) : (day_number d < 7)%nat.
Proof. destruct d; simpl; lia. Qed.

Section DecompositionProperties.

Variable getDay : string -> option weekday.

(** The weekday accumulators stay seven numbers each. *)
Lemma weekdays_finite (dates : list string) (revenues trends : list num)
      (idx : list nat) (tc : list num * list num) :
  Forall finite revenues -> Forall finite trends ->
  Forall (fun i => (i < length revenues)%nat /\ (i < length trends)%nat) idx ->
  Forall finite (fst tc) /\ length (fst tc) = 7%nat
  /\ Forall finite (snd tc) /\ length (snd tc) = 7%nat ->
  let tc' :=
    fold_left
      (fun tc i =>
         match dow_at getDay dates i with
         | Some dow =>
             (update (fst tc) (day_number dow)
                     (fun t => (t + (get revenues i - get trends i))%num),
              update (snd tc) (day_number dow) (fun c => (c + 1)%num))
         | None => tc
         end) idx tc in
  Forall finite (fst tc') /\ length (fst tc') = 7%nat
  /\ Forall finite (snd tc') /\ length (snd tc') = 7%nat.
Proof.
  intros Hr Ht Hidx. revert tc.
  induction Hidx as [| i idx [Hi1 Hi2] _ IH]; intros tc Htc; cbn [fold_left].
  - exact Htc.
  - apply IH. destruct Htc as (H1 & H2 & H3 & H4).
    destruct (dow_at getDay dates i) as [dow |]; [| tauto].
    cbn [fst snd]. rewrite !update_length. repeat split; try assumption.
    + apply update_finite; [exact H1 |]. intros v Hv.
      apply finite_add; [exact Hv |].
      apply finite_sub; apply get_finite; assumption.
    + apply update_finite; [exact H3 |]. intros v Hv.
      apply finite_add; [exact Hv | apply finite_fin].
Qed.

Lemma weekdayAvg_finite (totals counts : list num) :
  Forall finite totals -> Forall finite counts ->
  length totals = length counts ->
  let avg := mapi (fun t i => if num_gt (get counts i) 0
                              then (t / get counts i)%num else Fin 0) totals in
  Forall finite avg /\ length avg = length totals.
Proof.
  intros Ht Hc Hlen avg. subst avg. split; [| apply length_mapi].
  rewrite (mapi_seq NaN). apply Forall_map, Forall_forall.
  intros i Hi. apply in_seq in Hi.
  destruct (get_finite counts i Hc) as [c Ec]; [lia |].
  destruct (get_finite totals i Ht) as [t Et]; [lia |].
  unfold get in Ec, Et |- *. rewrite Ec, Et.
  destruct (num_gt (Fin c) 0) eqn:Hgt; [| apply finite_fin].
  apply num_gt_fin in Hgt. rewrite ndiv_fin by lra. apply finite_fin.
Qed.

Lemma mean_finite (l : list num) : Forall finite l -> finite (mean l).
Proof.
  intros H. destruct (Forall_finite_map l H) as [rs ->].
  rewrite mean_fin. apply finite_fin.
Qed.

(** C3, as the code has it: when there is a revenue for every date and
    every date string denotes a date, every point of the decomposition has
    numeric fields with residual = revenue - trend - seasonal, hence
    revenue = trend + seasonal + residual exactly. *)
Theorem C3_decomposition_exact (dates : list string) (revenues : list R) :
  (length dates <= length revenues)%nat ->
  (forall d, In d dates -> getDay d <> None) ->
  length (additiveDecomposition getDay dates (map Fin revenues)) = length dates
  /\ Forall decomposition_exact
            (additiveDecomposition getDay dates (map Fin revenues)).
Proof.
  intros Hlen Hdates. unfold additiveDecomposition.
  split; [apply length_mapi |].
  rewrite trends_fin, length_map.
  set (T := map (fun i => Spec.fitted revenues (INR i)) (seq 0 (length revenues))).
  assert (HT : length T = length revenues).
  { subst T. rewrite length_map, length_seq. reflexivity. }
  match goal with
  | |- context [fold_left ?body ?idx ?init] =>
      set (tc := fold_left body idx init)
  end.
  assert (Htc : Forall finite (fst tc) /\ length (fst tc) = 7%nat
                /\ Forall finite (snd tc) /\ length (snd tc) = 7%nat).
  { subst tc.
    apply (weekdays_finite dates (map Fin revenues) (map Fin T));
      try apply Forall_finite_fin.
    - apply Forall_forall. intros i Hi. apply in_seq in Hi.
      rewrite !length_map. lia.
    - cbn [fst snd]. repeat split;
        try (repeat constructor; apply finite_fin). }
  destruct Htc as (Ht & Htl & Hc & Hcl).
  destruct (weekdayAvg_finite (fst tc) (snd tc) Ht Hc) as [Havg Havgl];
    [lia |].
  cbv zeta in Havg, Havgl.
  set (avg := mapi (fun t i => if num_gt (get (snd tc) i) 0
                               then (t / get (snd tc) i)%num else Fin 0)
                   (fst tc)) in *.
  pose proof (mean_finite avg Havg) as [m Hm]. rewrite Hm.
  assert (Hadj : Forall finite (map (fun s => (s - Fin m)%num) avg)).
  { apply Forall_map. eapply Forall_impl; [| exact Havg].
    intros a Ha. apply finite_sub; [exact Ha | apply finite_fin]. }
  rewrite (mapi_seq EmptyString). apply Forall_map, Forall_forall.
  intros i Hi. apply in_seq in Hi.
  assert (Hd : In (nth i dates EmptyString) dates) by (apply nth_In; lia).
  specialize (Hdates _ Hd).
  destruct (getDay (nth i dates EmptyString)) as [dow |]; [| contradiction].
  destruct (get_finite _ (day_number dow) Hadj) as [s Hs].
  { rewrite length_map, Havgl, Htl. apply day_number_lt. }
  unfold decomposition_exact. cbn [revenue trend seasonal residual].
  rewrite Hs, !get_fin by lia.
  eexists _, _, _, _. repeat split; try reflexivity. lra.
Qed.

End DecompositionProperties.

Lemma C3_decomposition_exact_witness :
  (length ["2024-01-01"; "2024-01-02"]%string <= length [100; 130]%R)%nat
  /\ (forall d, In d ["2024-01-01"; "2024-01-02"]%string ->
                (fun _ : string => Some Monday) d <> None)
  /\ Forall decomposition_exact
            (additiveDecomposition (fun _ => Some Monday)
               ["2024-01-01"; "2024-01-02"]%string (map Fin [100; 130])).
Proof.
  assert (H1 : (length ["2024-01-01"; "2024-01-02"]%string
                <= length [100; 130]%R)%nat) by (simpl; lia).
  assert (H2 : forall d, In d ["2024-01-01"; "2024-01-02"]%string ->
                (fun _ : string => Some Monday) d <> None) by discriminate.
  split; [exact H1 |]. split; [exact H2 |].
  exact (proj2 (C3_decomposition_exact (fun _ => Some Monday) _ _ H1 H2)).
Defined.

(** A string that is not a date leaves the seasonal term undefined, also
    when every date has its revenue. *)
Lemma decomposition_invalid_date :
  ~ Forall decomposition_exact
           (additiveDecomposition (fun _ => None) ["soon"%string] (map Fin [100])).
Proof.
  intros H. unfold additiveDecomposition, mapi in H.
  cbn [length seq combine map] in H.
  apply Forall_inv in H.
  destruct H as (r & t & s & e & _ & _ & Hs & _).
  cbn [seasonal fst snd] in Hs. discriminate.
Qed.

(** C3 as stated, for every input, fails: with more dates than revenues the
    point of a date without revenue has an undefined revenue and trend and a
    NaN residual. *)
Lemma C3_counterexample_unpaired_date :
  ~ (forall (getDay : string -> option weekday)
            (dates : list string) (revenues : list R),
        Forall decomposition_exact
               (additiveDecomposition getDay dates (map Fin revenues))).
Proof.
  intros H.
  specialize (H (fun _ => Some Monday)
                ["2024-01-01"; "2024-01-02"]%string [100]).
  unfold additiveDecomposition, mapi in H.
  cbn [length seq combine map] in H.
  apply Forall_inv_tail, Forall_inv in H.
  destruct H as (r & t & s & e & Hr & _).
  cbn in Hr. discriminate.
Qed.

(** * Further properties of the engine *)

(** ** Constant series *)

Lemma Rsum_repeat (c : R) (n : nat) : Spec.Rsum (repeat c n) = INR n * c.
Proof.
  induction n as [| n IH].
  - simpl. lra.
  - rewrite S_INR. cbn [repeat]. unfold Spec.Rsum in *. cbn [fold_right].
    rewrite IH. lra.
Qed.

Lemma constant_repeat (c : R) (l : list R) :
  Forall (fun v => v = c) l -> l = repeat c (length l).
Proof.
  induction 1 as [| v l -> _ IH]; [reflexivity |].
  cbn [length repeat]. f_equal. exact IH.
Qed.

(** ** 6. Z-scores *)


Lemma map_const_repeat {A B : Type} (b : B) (l : list A) :
  map (fun _ => b) l = repeat b (length l).
Proof. induction l; simpl; congruence. Qed.



(** ** Anomaly detection *)




Lemma Rsum_app (l1 l2 : list R) :
  Spec.Rsum (l1 ++ l2) = Spec.Rsum l1 + Spec.Rsum l2.
Proof.
  unfold Spec.Rsum. induction l1 as [| v l1 IH]; cbn [app fold_right]; [lra |].
  rewrite IH. lra.
Qed.




(** ** 8. Confidence intervals *)

(** X5: on a real series the 95% interval is centred on the mean with a
    margin m >= 0: lower = mean - m <= mean <= mean + m = upper, where
    m = 1.96 * population standard deviation / sqrt n, and m = 0 for the
    empty series and for a single value. *)
Theorem X5_confidenceInterval_centred (l : list R) :
  let ci := confidenceInterval (map Fin l) in
  exists m : R,
    CI.margin ci = Fin m
    /\ CI.lower ci = Fin (Spec.Rmean l - m)
    /\ CI.upper ci = Fin (Spec.Rmean l + m)
    /\ 0 <= m
    /\ Spec.Rmean l - m <= Spec.Rmean l <= Spec.Rmean l + m
    /\ m = match l with
           | [] => 0
           | _ => 1.96 * Spec.pop_stddev l / sqrt (INR (length l))
           end
    /\ ((length l < 2)%nat -> m = 0).
Proof.
  intros ci. subst ci. unfold confidenceInterval.
  rewrite mean_fin, stdDev_fin, length_map. unfold len. rewrite length_map.
  destruct l as [| v l'].
  - exists 0. cbn. repeat split; try lra; f_equal; lra.
  - set (l := v :: l'). assert (Hn : 0 < INR (length l)).
    { apply INR_length_pos. discriminate. }
    pose proof (sqrt_lt_R0 _ Hn) as Hsq.
    pose proof (pop_stddev_nonneg l) as Hs.
    change (0 <? length l)%nat with true. cbv iota.
    rewrite sqrt_fin by lra. cbn [nmul]. rewrite ndiv_fin by lra.
    cbn [CI.margin CI.lower CI.upper nsub nadd].
    exists (1.96 * Spec.pop_stddev l / sqrt (INR (length l))).
    assert (Hm : 0 <= 1.96 * Spec.pop_stddev l / sqrt (INR (length l))).
    { apply Rmult_le_pos; [lra |]. apply Rlt_le, Rinv_0_lt_compat. exact Hsq. }
    repeat split; try reflexivity; try lra.
    intros Hshort. rewrite pop_stddev_short by exact Hshort.
    unfold Rdiv. rewrite Rmult_0_r, Rmult_0_l. reflexivity.
Qed.

(** X6: the band [generateForecast] computes inline is [forecastCI] of the
    point's linear forecast and the residuals of the fit: on a real history
    every forecast point has (lower, upper) = forecastCI(linear, residuals). *)
Theorem X6_forecast_band_is_forecastCI
        (revenues : list R) (periods : nat) (maWindow : Z) (emaAlpha : R) :
  let reg := linearRegression (map Fin revenues) in
  let residuals :=
    mapi (fun v i => (v - predict reg (Fin (INR i)))%num) (map Fin revenues) in
  Forall (fun p => forecastCI (linear p) residuals
                   = {| Band.lower := lower p; Band.upper := upper p |})
         (generateForecast (map Fin revenues) periods maWindow emaAlpha).
Proof.
  intros reg residuals. subst reg residuals.
  unfold generateForecast, forecastCI. rewrite residuals_fin.
  rewrite (filter_defined_id (map Fin (Spec.residuals revenues)))
    by apply Forall_finite_fin.
  apply Forall_map, Forall_forall. intros i _. reflexivity.
Qed.

(** ** 9-10. Break-even and profit margin *)

(** X7: for real revenue and cost, [profitMargin] is 100 times the
    profit_margin of [breakEvenAnalysis]; both are 0 when the revenue is not
    positive; with a positive revenue the margin times the revenue is the
    profit, the margin is at most 1 for a non-negative cost, and it is
    negative exactly when the cost exceeds the revenue (the break-even
    point). *)
Theorem X7_profit_margin_consistent (r c : R) :
  let b := breakEvenAnalysis (Fin r) (Fin c) in
  BreakEven.profit b = Fin (r - c)
  /\ BreakEven.surplus_deficit b = BreakEven.profit b
  /\ BreakEven.break_even b = Fin c
  /\ profitMargin (Fin r) (Fin c) = (BreakEven.profit_margin b * 100)%num
  /\ (r <= 0 -> BreakEven.profit_margin b = Fin 0
                /\ profitMargin (Fin r) (Fin c) = Fin 0)
  /\ (0 < r ->
      exists m : R,
        BreakEven.profit_margin b = Fin m /\ m * r = r - c
        /\ (0 <= c -> m <= 1)
        /\ (m < 0 <-> r < c)).
Proof.
  intros b. subst b. unfold breakEvenAnalysis, profitMargin.
  cbn [BreakEven.profit BreakEven.surplus_deficit BreakEven.break_even
       BreakEven.profit_margin nsub].
  unfold num_gt, num_lt, num_le.
  destruct (Rlt_dec 0 r) as [Hpos | Hnp]; destruct (Rle_dec r 0) as [Hle | Hnle];
    try lra.
  - rewrite ndiv_fin by lra. cbn [nmul].
    repeat split; try reflexivity; try lra.
    intros _. exists ((r - c) / r).
    assert (Hinv : 0 < / r) by (apply Rinv_0_lt_compat; exact Hpos).
    assert (Hm : (r - c) / r * r = r - c) by (field; lra).
    repeat split; try reflexivity; try exact Hm.
    + intros Hc. apply (Rmult_le_reg_r r); [exact Hpos |]. lra.
    + intros Hneg. nra.
    + intros Hrc. apply (Rmult_lt_reg_r r); [exact Hpos |]. lra.
  - cbn [nmul]. repeat split; try reflexivity; try lra; f_equal; lra.
Qed.

Lemma X7_profit_margin_consistent_witness :
  profitMargin (Fin 200) (Fin 150)
  = (BreakEven.profit_margin (breakEvenAnalysis (Fin 200) (Fin 150)) * 100)%num
  /\ (exists m : R,
        BreakEven.profit_margin (breakEvenAnalysis (Fin 200) (Fin 150)) = Fin m
        /\ m * 200 = 200 - 150)
  /\ profitMargin (Fin 0) (Fin 150) = Fin 0.
Proof.
  destruct (X7_profit_margin_consistent 200 150) as (_ & _ & _ & H4 & _ & H6).
  destruct (X7_profit_margin_consistent 0 150) as (_ & _ & _ & _ & H5 & _).
  split; [exact H4 |]. split.
  - destruct H6 as (m & Hm & Hr & _); [lra |]. exists m. split; assumption.
  - apply H5. lra.
Defined.

(** ** 12. Autocorrelation *)

Lemma autocorrelation_entries (values : list num) (maxLag : Z) :
  autocorrelation values maxLag
  = map (fun lag =>
           {| ACF.lag := lag;
              ACF.correlation :=
                if strict_eq
                     (fold_left (fun s v => (s + nsqr (v - mean values))%num)
                                values (Fin 0)) 0
                then Fin 0
                else (acf_num values (mean values) lag
                      / fold_left (fun s v => (s + nsqr (v - mean values))%num)
                                  values (Fin 0))%num |})
        (range 1 (Z.min maxLag (Z.of_nat (length values) - 1) + 1)).
Proof.
  unfold autocorrelation. cbv zeta.
  rewrite (fold_push _ (fun lag =>
           {| ACF.lag := lag;
              ACF.correlation :=
                if strict_eq
                     (fold_left (fun s v => (s + nsqr (v - mean values))%num)
                                values (Fin 0)) 0
                then Fin 0
                else (acf_num values (mean values) lag
                      / fold_left (fun s v => (s + nsqr (v - mean values))%num)
                                  values (Fin 0))%num |}));
    reflexivity.
Qed.

Lemma fold_fin_terms {A : Type} (f : A -> num) (g : A -> R) (xs : list A) (a : R) :
  (forall x, In x xs -> f x = Fin (g x)) ->
  fold_left (fun s x => (s + f x)%num) xs (Fin a)
  = Fin (a + Spec.Rsum (map g xs)).
Proof.
  revert a. induction xs as [| x xs IH]; intros a H; cbn [fold_left map].
  - unfold Spec.Rsum. cbn [fold_right]. f_equal. lra.
  - rewrite (H x (or_introl eq_refl)). cbn [nadd].
    rewrite IH by (intros; apply H; right; assumption).
    unfold Spec.Rsum. cbn [fold_right]. f_equal. lra.
Qed.

(** The lag-k numerator on a real series. *)
Lemma acf_num_fin (l : list R) (m : R) (lag : Z) :
  (0 <= lag)%Z ->
  acf_num (map Fin l) (Fin m) lag
  = Fin (Spec.Rsum
           (map (fun i => (nth (Z.to_nat i) l 0 - m)
                          * (nth (Z.to_nat (i - lag)) l 0 - m))
                (range lag (Z.of_nat (length l))))).
Proof.
  intros Hlag. unfold acf_num. rewrite length_map.
  rewrite (fold_fin_terms _
             (fun i => (nth (Z.to_nat i) l 0 - m)
                       * (nth (Z.to_nat (i - lag)) l 0 - m))).
  - f_equal. lra.
  - intros i Hi. apply in_range in Hi.
    rewrite !get_fin by lia. reflexivity.
Qed.

(** Twice a sum of products is at most the two sums of squares. *)
Lemma sum_products_bound {A : Type} (u v : A -> R) (xs : list A) :
  - (Spec.Rsum (map (fun x => u x * u x) xs)
     + Spec.Rsum (map (fun x => v x * v x) xs))
  <= 2 * Spec.Rsum (map (fun x => u x * v x) xs)
  <= Spec.Rsum (map (fun x => u x * u x) xs)
     + Spec.Rsum (map (fun x => v x * v x) xs).
Proof.
  unfold Spec.Rsum. induction xs as [| x xs IH]; cbn [map fold_right].
  - lra.
  - pose proof (Rle_0_sqr (u x - v x)) as H1.
    pose proof (Rle_0_sqr (u x + v x)) as H2. unfold Rsqr in H1, H2.
    lra.
Qed.

Lemma map_seq_shift {B : Type} (F : nat -> B) (s t len : nat) :
  map (fun k => F (s + k)%nat) (seq t len) = map F (seq (s + t) len).
Proof.
  revert t. induction len as [| len IH]; intros t; [reflexivity |].
  cbn [seq map]. f_equal. rewrite IH. rewrite Nat.add_succ_r. reflexivity.
Qed.

(** A sum of squares over a sub-range of the positions is at most the sum
    over all positions. *)
Lemma Rsum_sq_subrange (a : nat -> R) (s len n : nat) :
  (s + len <= n)%nat ->
  Spec.Rsum (map (fun j => a j * a j) (seq s len))
  <= Spec.Rsum (map (fun j => a j * a j) (seq 0 n)).
Proof.
  intros H.
  assert (Hnn : forall idx, 0 <= Spec.Rsum (map (fun j => a j * a j) idx)).
  { intros idx. apply Rsum_nonneg, Forall_map, Forall_forall.
    intros j _. apply (Rle_0_sqr (a j)). }
  replace n with (s + (len + (n - s - len)))%nat by lia.
  rewrite seq_app, map_app, Rsum_app. cbn [Nat.add].
  rewrite seq_app, map_app, Rsum_app.
  pose proof (Hnn (seq 0 s)). pose proof (Hnn (seq (s + len) (n - s - len))).
  lra.
Qed.

(** The numerator of a lag is bounded by the sum of squared deviations. *)
Lemma acf_numerator_bound (l : list R) (lag : Z) :
  (0 <= lag)%Z ->
  Rabs (Spec.Rsum
          (map (fun i => (nth (Z.to_nat i) l 0 - Spec.Rmean l)
                         * (nth (Z.to_nat (i - lag)) l 0 - Spec.Rmean l))
               (range lag (Z.of_nat (length l)))))
  <= Spec.sq_dev l.
Proof.
  intros Hlag. set (m := Spec.Rmean l). set (n := length l).
  set (a := fun j => nth j l 0 - m).
  set (L := Z.to_nat lag). set (M := Z.to_nat (Z.of_nat n - lag)).
  assert (Hidx : forall (h : Z -> R),
             Spec.Rsum (map h (range lag (Z.of_nat n)))
             = Spec.Rsum (map (fun k => h (lag + Z.of_nat k)%Z) (seq 0 M))).
  { intros h. unfold range. rewrite map_map. reflexivity. }
  pose proof (sum_products_bound
                (fun i => a (Z.to_nat i)) (fun i => a (Z.to_nat (i - lag)))
                (range lag (Z.of_nat n))) as Hb.
  assert (H1 : Spec.Rsum (map (fun i => a (Z.to_nat i) * a (Z.to_nat i))
                              (range lag (Z.of_nat n)))
               <= Spec.sq_dev l).
  { rewrite Hidx.
    rewrite (Rsum_map_ext _ (fun k => a (L + k)%nat * a (L + k)%nat)).
    2:{ intros k _. subst L.
        replace (Z.to_nat (lag + Z.of_nat k)) with (Z.to_nat lag + k)%nat by lia.
        reflexivity. }
    rewrite (map_seq_shift (fun j => a j * a j) L 0 M), Nat.add_0_r.
    destruct (Z_le_gt_dec lag (Z.of_nat n)) as [Hle | Hgt].
    - unfold Spec.sq_dev. fold m.
      rewrite (Rsum_map_nth (fun v => (v - m) * (v - m)) l). fold n.
      apply (Rsum_sq_subrange a). subst L M. lia.
    - replace M with 0%nat by (subst M; lia). cbn [seq map].
      apply sq_dev_nonneg. }
  assert (H2 : Spec.Rsum (map (fun i => a (Z.to_nat (i - lag)) * a (Z.to_nat (i - lag)))
                              (range lag (Z.of_nat n)))
               <= Spec.sq_dev l).
  { rewrite Hidx.
    rewrite (Rsum_map_ext _ (fun k => a k * a k)).
    2:{ intros k _.
        replace (Z.to_nat (lag + Z.of_nat k - lag)) with k by lia. reflexivity. }
    unfold Spec.sq_dev. fold m.
    rewrite (Rsum_map_nth (fun v => (v - m) * (v - m)) l). fold n.
    apply (Rsum_sq_subrange a 0). subst M. lia. }
  cbv beta in Hb. apply Rabs_le. unfold a in *. lra.
Qed.

(** X9: [autocorrelation] returns one entry per lag 1, 2, ...,
    min(maxLag, n - 1), in this order (none when maxLag < 1 or n < 2), and on
    a real series every correlation is a number between -1 and 1. *)
Theorem X9_autocorrelation_lags_and_range (l : list R) (maxLag : Z) :
  let acf := autocorrelation (map Fin l) maxLag in
  let k := Z.min maxLag (Z.of_nat (length l) - 1) in
  map ACF.lag acf = range 1 (k + 1)
  /\ length acf = Z.to_nat k
  /\ Forall (fun r => exists c : R, ACF.correlation r = Fin c /\ -1 <= c <= 1)
            acf.
Proof.
  intros acf k. subst acf k. rewrite autocorrelation_entries, length_map.
  rewrite map_map. cbn [ACF.lag]. rewrite map_id.
  split; [reflexivity |]. split.
  - rewrite length_map. unfold range. rewrite length_map, length_seq. lia.
  - apply Forall_map, Forall_forall. intros lag Hlag. apply in_range in Hlag.
    cbn [ACF.correlation]. rewrite mean_fin, fold_sq_fin, Rplus_0_l.
    change (Spec.Rsum (map (fun v => (v - Spec.Rmean l) * (v - Spec.Rmean l)) l))
      with (Spec.sq_dev l).
    destruct (Req_dec_T (Spec.sq_dev l) 0) as [E | N].
    + rewrite E, strict_eq_refl. exists 0. split; [reflexivity | lra].
    + rewrite strict_eq_neq by exact N.
      rewrite acf_num_fin by lia. rewrite ndiv_fin by exact N.
      eexists. split; [reflexivity |].
      pose proof (acf_numerator_bound l lag ltac:(lia)) as Hb.
      pose proof (sq_dev_nonneg l) as Hd.
      assert (Hpos : 0 < Spec.sq_dev l) by lra.
      assert (Hb' : - Spec.sq_dev l <= Spec.Rsum
           (map (fun i => (nth (Z.to_nat i) l 0 - Spec.Rmean l)
                          * (nth (Z.to_nat (i - lag)) l 0 - Spec.Rmean l))
                (range lag (Z.of_nat (length l)))) <= Spec.sq_dev l).
      { revert Hb. unfold Rabs. destruct (Rcase_abs _); lra. }
      set (N0 := Spec.Rsum _) in *.
      assert (E : N0 / Spec.sq_dev l * Spec.sq_dev l = N0) by (field; lra).
      set (q := N0 / Spec.sq_dev l) in *. nra.
Qed.

(** ** 13. Rolling statistics *)

Lemma rollingStats_entries (values : list num) (window : Z) :
  rollingStats values window
  = map (fun i =>
           if (Z.of_nat i <? window - 1)%Z
           then {| Rolling.index := i; Rolling.mean := NaN;
                   Rolling.std := NaN; Rolling.cv := NaN |}
           else
             let slice_ := slice values (Z.of_nat i - window + 1) (Z.of_nat i + 1) in
             {| Rolling.index := i; Rolling.mean := mean slice_;
                Rolling.std := stdDev slice_;
                Rolling.cv := if num_gt (mean slice_) 0
                              then (stdDev slice_ / mean slice_)%num else Fin 0 |})
        (seq 0 (length values)).
Proof. unfold rollingStats. apply (mapi_seq NaN). Qed.

(** A full window has [w] elements. *)
Lemma slice_window_length {A : Type} (values : list A) (w : Z) (i : nat) :
  (1 <= w)%Z -> (w - 1 <= Z.of_nat i)%Z -> (i < length values)%nat ->
  length (slice values (Z.of_nat i - w + 1) (Z.of_nat i + 1)) = Z.to_nat w.
Proof.
  intros Hw Hi Hn.
  replace (Z.of_nat i - w + 1)%Z with (Z.of_nat (i + 1 - Z.to_nat w)) by lia.
  replace (Z.of_nat i + 1)%Z with (Z.of_nat (i + 1)) by lia.
  rewrite slice_inside by lia.
  rewrite length_firstn, length_skipn. lia.
Qed.

(** X11: for a window w >= 1 the rolling statistics have one entry per
    value, entry i carrying index i, and their mean column is the moving
    average of the same window, markers included; on a real series the
    entries from position w - 1 on have std >= 0 and cv >= 0, with
    cv * mean = std when the window mean is positive and cv = 0 when it is
    not. *)
Theorem X11_rollingStats_columns (l : list R) (w : Z) :
  (1 <= w)%Z ->
  let rs := rollingStats (map Fin l) w in
  map Rolling.index rs = seq 0 (length l)
  /\ map Rolling.mean rs = movingAverage (map Fin l) w
  /\ Forall (fun r =>
       if (Z.of_nat (Rolling.index r) <? w - 1)%Z
       then Rolling.std r = NaN /\ Rolling.cv r = NaN
       else exists m s c : R,
              Rolling.mean r = Fin m /\ Rolling.std r = Fin s
              /\ Rolling.cv r = Fin c /\ 0 <= s /\ 0 <= c
              /\ (0 < m -> c * m = s) /\ (m <= 0 -> c = 0)) rs.
Proof.
  intros Hw rs. subst rs.
  rewrite rollingStats_entries, movingAverage_entries, length_map, !map_map.
  split; [| split].
  - rewrite <- (map_id (seq 0 (length l))) at 2. apply map_ext. intros i.
    destruct (Z.of_nat i <? w - 1)%Z; reflexivity.
  - apply map_ext_in. intros i Hi. apply in_seq in Hi. unfold ma_entry.
    destruct (Z.ltb_spec (Z.of_nat i) (w - 1)) as [Hlt | Hge]; [reflexivity |].
    cbn [Rolling.mean].
    pose proof (slice_window_length (map Fin l) w i Hw Hge) as Hlen.
    rewrite length_map in Hlen. specialize (Hlen ltac:(lia)).
    unfold mean, len. rewrite Hlen.
    destruct (Nat.eqb_spec (Z.to_nat w) 0); [lia |].
    rewrite INR_IZR_INZ, Z2Nat.id by lia. reflexivity.
  - apply Forall_map, Forall_forall. intros i Hi. apply in_seq in Hi.
    destruct (Z.ltb_spec (Z.of_nat i) (w - 1)) as [Hlt | Hge];
      cbn [Rolling.index Rolling.mean Rolling.std Rolling.cv].
    + destruct (Z.ltb_spec (Z.of_nat i) (w - 1)); [| lia]. split; reflexivity.
    + destruct (Z.ltb_spec (Z.of_nat i) (w - 1)); [lia |].
      destruct (slice_window_fin l w i Hw Hge ltac:(lia)) as [-> _].
      set (sl := firstn (Z.to_nat w) (skipn (i + 1 - Z.to_nat w) l)).
      rewrite mean_fin, stdDev_fin.
      pose proof (pop_stddev_nonneg sl) as Hs.
      unfold num_gt, num_lt.
      destruct (Rlt_dec 0 (Spec.Rmean sl)) as [Hpos | Hnp].
      * rewrite ndiv_fin by lra.
        exists (Spec.Rmean sl), (Spec.pop_stddev sl),
               (Spec.pop_stddev sl / Spec.Rmean sl).
        repeat split; try reflexivity; try lra.
        -- apply Rmult_le_pos; [exact Hs |].
           apply Rlt_le, Rinv_0_lt_compat. exact Hpos.
        -- intros _. field. lra.
      * exists (Spec.Rmean sl), (Spec.pop_stddev sl), 0.
        repeat split; try reflexivity; try lra.
Qed.

Lemma X11_rollingStats_columns_witness :
  (1 <= 2)%Z
  /\ map Rolling.index (rollingStats (map Fin [10; 20; 60]) 2) = [0; 1; 2]%nat
  /\ map Rolling.mean (rollingStats (map Fin [10; 20; 60]) 2)
     = movingAverage (map Fin [10; 20; 60]) 2.
Proof.
  assert (H : (1 <= 2)%Z) by lia.
  destruct (X11_rollingStats_columns [10; 20; 60] 2 H) as (H1 & H2 & _).
  split; [exact H |]. split; [exact H1 | exact H2].
Defined.

(** ** Forecast error metrics *)

Lemma Rsum_cons (x : R) (l : list R) : Spec.Rsum (x :: l) = x + Spec.Rsum l.
Proof. reflexivity. Qed.

(** The loop of [errorMetrics] on real actual values: the error of a
    position is 0 where the forecast is a marker. *)
Lemma em_loop_fin (actual : list R) (forecast : list num) (idx : list nat)
      (A B M C : R) :
  Forall (fun i => (i < length actual)%nat) idx ->
  0 <= M -> 0 <= C ->
  let err := fun i => match get forecast i with
                      | NaN => 0
                      | Fin f => nth i actual 0 - f
                      end in
  exists M' C' : R,
    fold_left (em_step (map Fin actual) forecast) idx
              {| maeSum := A; mseSum := B; mapeSum := M; mapeCount := C |}
    = {| maeSum := Fin (A + Spec.Rsum (map (fun i => Rabs (err i)) idx));
         mseSum := Fin (B + Spec.Rsum (map (fun i => err i * err i) idx));
         mapeSum := Fin M'; mapeCount := Fin C' |}
    /\ 0 <= M' /\ 0 <= C'
    /\ (M = 0 -> (forall i, In i idx -> err i = 0) -> M' = 0).
Proof.
  intros Hidx HM HC err. revert A B M C HM HC.
  induction Hidx as [| i idx Hi _ IH]; intros A B M C HM HC.
  - exists M, C. cbn [fold_left map]. unfold Spec.Rsum. cbn [fold_right].
    rewrite !Rplus_0_r. repeat split; auto.
  - cbn [fold_left map]. rewrite !Rsum_cons, <- !Rplus_assoc.
    assert (Hstep :
      exists A1 B1 M1 C1 : R,
        em_step (map Fin actual) forecast
                {| maeSum := A; mseSum := B; mapeSum := M; mapeCount := C |} i
        = {| maeSum := A1; mseSum := B1; mapeSum := M1; mapeCount := C1 |}
        /\ A1 = A + Rabs (err i) /\ B1 = B + err i * err i
        /\ 0 <= M1 /\ 0 <= C1 /\ (M = 0 -> err i = 0 -> M1 = 0)).
    { unfold em_step. cbn [maeSum mseSum mapeSum mapeCount].
      rewrite (get_fin actual i Hi). unfold err.
      destruct (get forecast i) as [| f]; cbn [isNaN].
      - exists A, B, M, C. rewrite Rabs_R0.
        repeat split; auto; lra.
      - cbn [nsub Math.abs nsqr nadd].
        destruct (Req_dec_T (nth i actual 0) 0) as [Ea | Na].
        + rewrite (proj2 (strict_eq_fin (nth i actual 0) 0) Ea). cbn [negb].
          eexists _, _, M, C. repeat split; auto.
        + rewrite strict_eq_neq by exact Na. cbn [negb].
          rewrite ndiv_fin by exact Na. cbn [Math.abs nadd].
          pose proof (Rabs_pos ((nth i actual 0 - f) / nth i actual 0)).
          eexists _, _, _, _. split; [reflexivity |].
          repeat split; try lra.
          intros -> ->. unfold Rdiv. rewrite Rmult_0_l, Rabs_R0. lra. }
    destruct Hstep as (A1 & B1 & M1 & C1 & -> & -> & -> & HM1 & HC1 & Hz1).
    destruct (IH (A + Rabs (err i)) (B + err i * err i) M1 C1 HM1 HC1)
      as (M' & C' & E & HM' & HC' & Hz).
    exists M', C'. split; [exact E |]. repeat split; auto.
    intros HM0 Herr. apply Hz.
    + apply Hz1; [exact HM0 |]. apply Herr. left. reflexivity.
    + intros j Hj. apply Herr. right. exact Hj.
Qed.

(** X12: on real actual values, with n = min of the two lengths > 0,
    [errorMetrics] returns numbers: mae is the sum of the absolute errors
    divided by n and mse the sum of the squared errors divided by n, where a
    position whose forecast is NaN is skipped (its error counts as 0) but
    still counted in n; rmse is the square root of mse, and none of the
    four is negative.  With n = 0 all four metrics are 0. *)
Theorem X12_errorMetrics_sums (actual : list R) (forecast : list num) :
  let n := Nat.min (length actual) (length forecast) in
  let err := fun i => match get forecast i with
                      | NaN => 0
                      | Fin f => nth i actual 0 - f
                      end in
  let m := errorMetrics (map Fin actual) forecast in
  (n = 0%nat ->
   m = {| Metrics.mae := 0; Metrics.mse := 0; Metrics.rmse := 0;
          Metrics.mape := 0 |})
  /\ ((0 < n)%nat ->
      exists a b r p : R,
        Metrics.mae m = Fin a /\ Metrics.mse m = Fin b
        /\ Metrics.rmse m = Fin r /\ Metrics.mape m = Fin p
        /\ a = Spec.Rsum (map (fun i => Rabs (err i)) (seq 0 n)) / INR n
        /\ b = Spec.Rsum (map (fun i => err i * err i) (seq 0 n)) / INR n
        /\ r = sqrt b /\ 0 <= a /\ 0 <= b /\ 0 <= r /\ 0 <= p).
Proof.
  intros n err m. subst m. unfold errorMetrics. rewrite length_map. fold n.
  split.
  - intros ->. reflexivity.
  - intros Hn. destruct (Nat.eqb_spec n 0) as [E | _]; [lia |].
    cbv zeta.
    destruct (em_loop_fin actual forecast (seq 0 n) 0 0 0 0)
      as (M' & C' & -> & HM' & HC' & _); try lra.
    { apply Forall_forall. intros i Hi. apply in_seq in Hi. subst n. lia. }
    cbn [maeSum mseSum mapeSum mapeCount]. fold err. rewrite !Rplus_0_l.
    assert (Hpos : 0 < INR n) by (apply lt_0_INR; exact Hn).
    rewrite !ndiv_fin by lra.
    assert (HA : 0 <= Spec.Rsum (map (fun i => Rabs (err i)) (seq 0 n))).
    { apply Rsum_nonneg, Forall_map, Forall_forall. intros i _. apply Rabs_pos. }
    assert (HB : 0 <= Spec.Rsum (map (fun i => err i * err i) (seq 0 n))).
    { apply Rsum_nonneg, Forall_map, Forall_forall. intros i _.
      apply (Rle_0_sqr (err i)). }
    set (SA := Spec.Rsum (map (fun i => Rabs (err i)) (seq 0 n))) in *.
    set (SB := Spec.Rsum (map (fun i => err i * err i) (seq 0 n))) in *.
    assert (Hinv : 0 < / INR n) by (apply Rinv_0_lt_compat; exact Hpos).
    assert (Ha : 0 <= SA / INR n) by (apply Rmult_le_pos; lra).
    assert (Hb : 0 <= SB / INR n) by (apply Rmult_le_pos; lra).
    rewrite sqrt_fin by exact Hb.
    pose proof (sqrt_pos (SB / INR n)) as Hr.
    assert (Hp : exists p, (if num_gt (Fin C') 0
                            then (Fin M' / Fin C' * 100)%num else Fin 0) = Fin p
                           /\ 0 <= p).
    { unfold num_gt, num_lt. destruct (Rlt_dec 0 C') as [Hc | Hc].
      - rewrite ndiv_fin by lra. cbn [nmul]. eexists. split; [reflexivity |].
        apply Rmult_le_pos; [| lra].
        apply Rmult_le_pos; [exact HM' |]. apply Rlt_le, Rinv_0_lt_compat, Hc.
      - exists 0. split; [reflexivity | lra]. }
    destruct Hp as (p & -> & Hp).
    exists (SA / INR n), (SB / INR n), (sqrt (SB / INR n)), p.
    cbn [Metrics.mae Metrics.mse Metrics.rmse Metrics.mape].
    repeat split; try reflexivity; try lra.
Qed.

Lemma X12_errorMetrics_sums_witness :
  exists a b r p : R,
    Metrics.mae (errorMetrics (map Fin [10; 20; 30]) [NaN; Fin 18; Fin 33]) = Fin a
    /\ Metrics.mse (errorMetrics (map Fin [10; 20; 30]) [NaN; Fin 18; Fin 33]) = Fin b
    /\ Metrics.rmse (errorMetrics (map Fin [10; 20; 30]) [NaN; Fin 18; Fin 33]) = Fin r
    /\ Metrics.mape (errorMetrics (map Fin [10; 20; 30]) [NaN; Fin 18; Fin 33]) = Fin p
    /\ a = 5 / 3 /\ b = 13 / 3 /\ r = sqrt b.
Proof.
  destruct (X12_errorMetrics_sums [10; 20; 30] [NaN; Fin 18; Fin 33])
    as [_ H].
  destruct H as (a & b & r & p & Ha & Hb & Hr & Hp & Ea & Eb & Er & _).
  { simpl. lia. }
  exists a, b, r, p. repeat split; try assumption.
  - rewrite Ea. unfold Spec.Rsum. simpl.
    rewrite (Rabs_right (20 - 18)), (Rabs_left (30 - 33)), Rabs_R0 by lra. lra.
  - rewrite Eb. unfold Spec.Rsum. simpl. lra.
Defined.

(** X13: a forecast that equals the actual value wherever it is defined
    (markers elsewhere) has no error: mae = mse = rmse = mape = 0. *)
Theorem X13_errorMetrics_exact_forecast (actual : list R) (forecast : list num) :
  (forall i, (i < length actual)%nat -> (i < length forecast)%nat ->
             get forecast i = NaN \/ get forecast i = Fin (nth i actual 0)) ->
  errorMetrics (map Fin actual) forecast
  = {| Metrics.mae := 0; Metrics.mse := 0; Metrics.rmse := 0;
       Metrics.mape := 0 |}.
Proof.
  intros H. unfold errorMetrics. rewrite length_map.
  set (n := Nat.min (length actual) (length forecast)).
  destruct (Nat.eqb_spec n 0) as [E | Hn]; [reflexivity |].
  cbv zeta.
  assert (Herr : forall i, In i (seq 0 n) ->
            match get forecast i with
            | NaN => 0
            | Fin f => nth i actual 0 - f
            end = 0).
  { intros i Hi. apply in_seq in Hi.
    destruct (H i) as [-> | ->]; try (subst n; lia); [reflexivity | lra]. }
  destruct (em_loop_fin actual forecast (seq 0 n) 0 0 0 0)
    as (M' & C' & -> & HM' & HC' & Hz); try lra.
  { apply Forall_forall. intros i Hi. apply in_seq in Hi. subst n. lia. }
  cbv zeta in Hz. specialize (Hz eq_refl Herr). subst M'.
  cbn [maeSum mseSum mapeSum mapeCount].
  rewrite (Rsum_map_ext _ (fun _ => 0))
    by (intros i Hi; rewrite (Herr i Hi); apply Rabs_R0).
  rewrite (Rsum_map_ext (fun i => _ * _) (fun _ => 0))
    by (intros i Hi; rewrite (Herr i Hi); ring).
  rewrite map_const_repeat, Rsum_repeat, Rmult_0_r, Rplus_0_l.
  assert (Hpos : INR n <> 0) by (apply not_0_INR; exact Hn).
  rewrite !ndiv_fin by exact Hpos.
  replace (0 / INR n) with 0 by (field; exact Hpos).
  rewrite sqrt_fin, sqrt_0 by lra.
  unfold num_gt, num_lt. destruct (Rlt_dec 0 C') as [Hc | Hc]; [| reflexivity].
  rewrite ndiv_fin by lra. cbn [nmul].
  replace (0 / C' * 100) with 0 by (field; lra). reflexivity.
Qed.

Lemma X13_errorMetrics_exact_forecast_witness :
  errorMetrics (map Fin [10; 20; 30]) [NaN; Fin 20; Fin 30]
  = {| Metrics.mae := 0; Metrics.mse := 0; Metrics.rmse := 0;
       Metrics.mape := 0 |}.
Proof.
  apply (X13_errorMetrics_exact_forecast [10; 20; 30] [NaN; Fin 20; Fin 30]).
  intros i H1 H2. simpl in H1.
  destruct i as [| [| [| i]]]; cbn [get nth]; auto; lia.
Defined.

(** ** 7. Pearson correlation *)

Lemma nmul_comm (a b : num) : (a * b)%num = (b * a)%num.
Proof. destruct a, b; cbn; try reflexivity. now rewrite Rmult_comm. Qed.

(** Exchanging the two series exchanges the two sums of squares and keeps
    the sum of products. *)
Lemma pearson_loop_swap (xs ys : list num) (xm ym : num) (idx : list nat)
      (a b c : num) :
  let r := fold_left (pearson_step xs ys xm ym) idx
                     {| num_ := a; dx2 := b; dy2 := c |} in
  fold_left (pearson_step ys xs ym xm) idx {| num_ := a; dx2 := c; dy2 := b |}
  = {| num_ := num_ r; dx2 := dy2 r; dy2 := dx2 r |}.
Proof.
  revert a b c. induction idx as [| i idx IH]; intros a b c; cbn [fold_left].
  - reflexivity.
  - unfold pearson_step at 2 4. cbn [num_ dx2 dy2].
    rewrite (nmul_comm (get ys i - ym) (get xs i - xm)). apply IH.
Qed.

(** X18: the correlation does not depend on the order of its two
    arguments, whatever the two arrays hold. *)
Theorem X18_pearson_symmetric (xs ys : list num) :
  pearsonCorrelation xs ys = pearsonCorrelation ys xs.
Proof.
  unfold pearsonCorrelation. rewrite (Nat.min_comm (length ys)).
  destruct (Nat.min (length xs) (length ys) <? 2)%nat; [reflexivity |].
  cbv zeta.
  rewrite (pearson_loop_swap xs ys _ _ _ (Fin 0) (Fin 0) (Fin 0)).
  cbn [num_ dx2 dy2].
  rewrite orb_comm, nmul_comm. reflexivity.
Qed.

(** ** Structural breaks: short and constant series *)

Lemma filter_none {A : Type} (c : A -> bool) (l : list A) :
  (forall x, In x l -> c x = false) -> filter c l = [].
Proof.
  induction l as [| x l IH]; intros H; [reflexivity |].
  cbn [filter]. rewrite (H x (or_introl eq_refl)).
  apply IH. intros y Hy. apply H. right. exact Hy.
Qed.

Lemma detectStructuralBreaks_filter (l : list R) (s : R) :
  detectStructuralBreaks (map Fin l) (Fin s)
  = filter (fun i =>
              num_gt
                (Math.abs (mean (slice (map Fin l) (Z.max 0 (i - 5)) i)
                           - mean (slice (map Fin l) i
                                         (Z.min (Z.of_nat (length l)) (i + 5)))))
                (Fin s * Fin (Spec.pop_stddev l))%num)
           (range 5 (Z.of_nat (length l) - 5)).
Proof.
  unfold detectStructuralBreaks. rewrite length_map, stdDev_fin.
  rewrite (fold_push_if _
    (fun i => num_gt
       (Math.abs (mean (slice (map Fin l) (Z.max 0 (i - 5)) i)
                  - mean (slice (map Fin l) i
                                (Z.min (Z.of_nat (length l)) (i + 5)))))
       (Fin s * Fin (Spec.pop_stddev l))%num))
    by reflexivity.
  reflexivity.
Qed.

Lemma mean5_repeat (c : R) (n a : nat) :
  (a + 5 <= n)%nat -> Spec.mean5 (repeat c n) a = c.
Proof.
  intros H. unfold Spec.mean5. rewrite !nth_repeat_lt by lia. field.
Qed.

(** X21: [detectStructuralBreaks] reports no break on a real series with
    fewer than 11 values, whatever they are and whatever the sensitivity,
    and none on a constant series of any length when the sensitivity is not
    negative: the two window means are equal, and their difference 0 does
    not exceed the threshold, which is not negative. *)
Theorem X21_no_breaks_short_or_constant (l : list R) (s c : R) :
  (length l < 11)%nat \/ (0 <= s /\ Forall (fun v => v = c) l) ->
  detectStructuralBreaks (map Fin l) (Fin s) = [].
Proof.
  intros H. rewrite detectStructuralBreaks_filter.
  destruct H as [H | H].
  - unfold range.
    replace (Z.to_nat (Z.of_nat (length l) - 5 - 5)) with 0%nat by lia.
    reflexivity.
  - destruct H as [Hs H].
    apply filter_none. intros i Hi. apply in_range in Hi.
    assert (Ha : exists a, i = Z.of_nat (a + 5) /\ (a + 10 <= length l)%nat).
    { exists (Z.to_nat (i - 5)). lia. }
    destruct Ha as (a & -> & Ha).
    destruct (break_windows l a Ha) as [HL HR]. cbv zeta in HL, HR.
    rewrite HL, HR.
    pose proof (pop_stddev_nonneg l) as Hsigma.
    set (sigma := Spec.pop_stddev l) in *.
    rewrite (constant_repeat c l H).
    rewrite !mean5_repeat by lia.
    cbn [nsub nmul Math.abs].
    unfold num_gt, num_lt.
    replace (c - c) with 0 by ring. rewrite Rabs_R0.
    destruct (Rlt_dec (s * sigma) 0) as [Hneg | _]; [| reflexivity].
    assert (0 <= s * sigma) by (apply Rmult_le_pos; assumption). lra.
Qed.

Lemma X21_no_breaks_short_or_constant_witness :
  detectStructuralBreaks (map Fin [5; 90; 5; 90; 5; 90; 5; 90; 5; 90]) (Fin 1.5) = []
  /\ detectStructuralBreaks (map Fin (repeat 100 14)) (Fin 1.5) = [].
Proof.
  split.
  - apply (X21_no_breaks_short_or_constant
             [5; 90; 5; 90; 5; 90; 5; 90; 5; 90] 1.5 0).
    left. simpl. lia.
  - apply (X21_no_breaks_short_or_constant (repeat 100 14) 1.5 100).
    right. split; [lra |].
    apply Forall_forall. intros v Hv. apply repeat_spec in Hv. exact Hv.
Defined.

(** * Properties of the storage layer *)

Lemma chars_app (s t : string) :
  list_ascii_of_string (s ++ t)%string
  = list_ascii_of_string s ++ list_ascii_of_string t.
Proof. induction s as [| c s IH]; simpl; [reflexivity | now rewrite IH]. Qed.

Lemma chars_inj (s t : string) :
  list_ascii_of_string s = list_ascii_of_string t -> s = t.
Proof.
  intros E. rewrite <- (string_of_list_ascii_of_string s),
    <- (string_of_list_ascii_of_string t). now rewrite E.
Qed.

Lemma length_chars (s : string) :
  length (list_ascii_of_string s) = String.length s.
Proof. induction s as [| c s IH]; simpl; [reflexivity | now rewrite IH]. Qed.

Lemma charCodeAt_range (c : Ascii.ascii) : (0 <= Storage.charCodeAt c < 256)%Z.
Proof.
  unfold Storage.charCodeAt. pose proof (Ascii.N_ascii_bounded c). lia.
Qed.

Lemma charCodeAt_inj (c d : Ascii.ascii) :
  Storage.charCodeAt c = Storage.charCodeAt d -> c = d.
Proof.
  unfold Storage.charCodeAt. intros E. apply N2Z.inj in E.
  rewrite <- (Ascii.ascii_N_embedding c), <- (Ascii.ascii_N_embedding d).
  now rewrite E.
Qed.

Lemma to_hex_nonnil (n : N) : N.to_hex_uint n <> Hexadecimal.Nil.
Proof.
  destruct n as [| p]; [discriminate |].
  apply HexadecimalPos.Unsigned.to_uint_nonnil.
Qed.

Lemma toString16_nonempty (n : Z) : Storage.nonempty (Storage.toString16 n) = true.
Proof.
  unfold Storage.toString16.
  pose proof (to_hex_nonnil (Z.to_N n)) as H.
  destruct (N.to_hex_uint (Z.to_N n)); [contradiction | reflexivity ..].
Qed.

Lemma toString16_inj (a b : Z) :
  (0 <= a)%Z -> (0 <= b)%Z ->
  Storage.toString16 a = Storage.toString16 b -> a = b.
Proof.
  unfold Storage.toString16. intros Ha Hb E.
  apply (f_equal HexadecimalString.NilZero.uint_of_string) in E.
  rewrite !HexadecimalString.NilZero.usu in E by apply to_hex_nonnil.
  injection E as E. apply HexadecimalN.Unsigned.to_uint_inj in E. lia.
Qed.

Lemma hash_fold_range (l : list Ascii.ascii) (h : Z) :
  (0 <= h < 2 ^ 32)%Z -> (0 <= fold_left Storage.hash_step l h < 2 ^ 32)%Z.
Proof.
  revert h. induction l as [| c l IH]; intros h Hh; simpl; [exact Hh |].
  apply IH. unfold Storage.hash_step, Storage.to_uint32.
  apply Z.mod_pos_bound. lia.
Qed.

Lemma hash_loop_range (pin : string) : (0 <= Storage.hash_loop pin < 2 ^ 32)%Z.
Proof. apply hash_fold_range. lia. Qed.

Lemma hashPin_eq_iff (p q : string) :
  Storage.hashPin q = Storage.hashPin p <-> Storage.hash_loop q = Storage.hash_loop p.
Proof.
  unfold Storage.hashPin. split; [| now intros ->].
  apply toString16_inj; apply hash_loop_range.
Qed.

(** the hash after a further stretch of characters *)
Lemma hash_fold_shift (l : list Ascii.ascii) (h : Z) :
  (0 <= h < 2 ^ 32)%Z ->
  fold_left Storage.hash_step l h
  = ((h * 31 ^ Z.of_nat (length l) + fold_left Storage.hash_step l 0) mod 2 ^ 32)%Z.
Proof.
  intros Hh. induction l as [| c l IH] using rev_ind.
  - simpl. rewrite Z.mul_1_r, Z.add_0_r, Z.mod_small; [reflexivity | exact Hh].
  - rewrite !fold_left_app, length_app, Nat2Z.inj_add. simpl fold_left.
    simpl length. rewrite IH. unfold Storage.hash_step, Storage.to_uint32.
    rewrite Z.pow_add_r by lia. change (31 ^ Z.of_nat 1)%Z with 31%Z.
    set (P := (31 ^ Z.of_nat (length l))%Z).
    set (f := fold_left _ l 0%Z).
    set (k := Storage.charCodeAt c).
    rewrite <- (Z.add_mod_idemp_l (_ mod _ * 31)), Z.mul_mod_idemp_l by lia.
    rewrite Z.add_mod_idemp_l by lia.
    rewrite Z.add_mod_idemp_r by lia.
    f_equal. ring.
Qed.

Lemma hash_fold_congruence (u v : list Ascii.ascii) (h : Z) :
  (0 <= h < 2 ^ 32)%Z -> length u = length v ->
  fold_left Storage.hash_step u 0%Z = fold_left Storage.hash_step v 0%Z ->
  fold_left Storage.hash_step u h = fold_left Storage.hash_step v h.
Proof.
  intros Hh Hlen E. rewrite (hash_fold_shift u), (hash_fold_shift v) by exact Hh.
  now rewrite Hlen, E.
Qed.

Lemma hash_poly_snoc (l : list Ascii.ascii) (c : Ascii.ascii) :
  hash_poly (l ++ [c]) = (hash_poly l * 31 + Storage.charCodeAt c)%Z.
Proof. unfold hash_poly. now rewrite fold_left_app. Qed.

Lemma hash_poly_nonneg (l : list Ascii.ascii) : (0 <= hash_poly l)%Z.
Proof.
  induction l as [| c l IH] using rev_ind; [unfold hash_poly; simpl; lia |].
  rewrite hash_poly_snoc. pose proof (charCodeAt_range c). lia.
Qed.

Lemma isDigits_Forall (s : string) :
  isDigits s = true -> Forall digit_code (list_ascii_of_string s).
Proof.
  unfold isDigits. rewrite forallb_forall, Forall_forall.
  intros H c Hc. specialize (H c Hc). unfold digit_code.
  apply andb_true_iff in H as [H1 H2]. lia.
Qed.

(** up to six digits the hash never wraps *)
Lemma hash_digits_no_wrap (l : list Ascii.ascii) :
  Forall digit_code l -> (length l <= 6)%nat ->
  fold_left Storage.hash_step l 0%Z = hash_poly l
  /\ (hash_poly l <= 2 * 31 ^ Z.of_nat (length l) - 2)%Z.
Proof.
  induction l as [| c l IH] using rev_ind; intros Hd Hlen.
  - split; [reflexivity | unfold hash_poly; simpl; lia].
  - apply Forall_app in Hd as [Hd Hc]. inversion Hc as [| ? ? Hc' _]; subst.
    rewrite length_app in Hlen |- *. simpl length in Hlen |- *.
    destruct (IH Hd ltac:(lia)) as [E B].
    rewrite fold_left_app, hash_poly_snoc. simpl fold_left. rewrite E.
    rewrite Nat2Z.inj_add, Z.pow_add_r by lia.
    change (31 ^ Z.of_nat 1)%Z with 31%Z.
    unfold digit_code in Hc'. pose proof (hash_poly_nonneg l) as Hn.
    assert (Hp : (31 ^ Z.of_nat (length l) <= 31 ^ 5)%Z)
      by (apply Z.pow_le_mono_r; lia).
    change (31 ^ 5)%Z with 28629151%Z in Hp.
    split; [| lia].
    unfold Storage.hash_step, Storage.to_uint32. apply Z.mod_small.
    change (2 ^ 32)%Z with 4294967296%Z. lia.
Qed.

Lemma hash_poly_inj (l1 l2 : list Ascii.ascii) :
  Forall digit_code l1 -> Forall digit_code l2 ->
  hash_poly l1 = hash_poly l2 -> l1 = l2.
Proof.
  revert l2. induction l1 as [| c1 l1 IH] using rev_ind; intros l2 H1 H2 E.
  - destruct l2 as [| c2 l2] using rev_ind; [reflexivity |].
    apply Forall_app in H2 as [_ Hc]. inversion Hc as [| ? ? Hc' _]; subst.
    rewrite hash_poly_snoc in E. unfold hash_poly in E at 1. simpl in E.
    unfold digit_code in Hc'. pose proof (hash_poly_nonneg l2). lia.
  - apply Forall_app in H1 as [H1 Hc1]. inversion Hc1 as [| ? ? Hc1' _]; subst.
    destruct l2 as [| c2 l2 _] using rev_ind.
    + rewrite hash_poly_snoc in E. unfold hash_poly in E at 2. simpl in E.
      unfold digit_code in Hc1'. pose proof (hash_poly_nonneg l1). lia.
    + apply Forall_app in H2 as [H2 Hc2]. inversion Hc2 as [| ? ? Hc2' _]; subst.
      rewrite !hash_poly_snoc in E. unfold digit_code in Hc1', Hc2'.
      assert (Ec : Storage.charCodeAt c1 = Storage.charCodeAt c2) by lia.
      assert (Ep : hash_poly l1 = hash_poly l2) by lia.
      rewrite (IH l2 H1 H2 Ep), (charCodeAt_inj _ _ Ec). reflexivity.
Qed.

Lemma hash_loop_digits_inj (p q : string) :
  isDigits p = true -> isDigits q = true ->
  (String.length p <= 6)%nat -> (String.length q <= 6)%nat ->
  Storage.hash_loop q = Storage.hash_loop p -> q = p.
Proof.
  intros Hp Hq Lp Lq E. apply chars_inj.
  apply isDigits_Forall in Hp, Hq. rewrite <- length_chars in Lp, Lq.
  unfold Storage.hash_loop in E.
  rewrite (proj1 (hash_digits_no_wrap _ Hp Lp)),
    (proj1 (hash_digits_no_wrap _ Hq Lq)) in E.
  now apply hash_poly_inj.
Qed.

(** *** Arrays *)

Lemma findIndex_from_none {T : Type} (p : T -> bool) (l : list T) (i : Z) :
  existsb p l = false -> Storage.findIndex_from p l i = (-1)%Z.
Proof.
  revert i. induction l as [| x l IH]; intros i H; simpl in *; [reflexivity |].
  apply orb_false_iff in H as [Hx Hl]. rewrite Hx. now apply IH.
Qed.

Lemma findIndex_from_split {T : Type} (p : T -> bool) (l : list T) (i : Z) :
  existsb p l = true ->
  exists l1 x l2, l = l1 ++ x :: l2 /\ existsb p l1 = false /\ p x = true
    /\ Storage.findIndex_from p l i = (i + Z.of_nat (length l1))%Z.
Proof.
  revert i. induction l as [| x l IH]; intros i H; simpl in *; [discriminate |].
  destruct (p x) eqn:Hx.
  - exists [], x, l. simpl. repeat split; auto. lia.
  - simpl in H. destruct (IH (i + 1)%Z H) as (l1 & y & l2 & -> & H1 & Hy & E).
    exists (x :: l1), y, l2. simpl. rewrite Hx, E. repeat split; auto. lia.
Qed.

Lemma assign_middle {T : Type} (l1 l2 : list T) (x y : T) :
  Storage.assign (l1 ++ x :: l2) (length l1) y = l1 ++ y :: l2.
Proof. induction l1 as [| z l1 IH]; simpl; [reflexivity | now rewrite IH]. Qed.

(** what the four lines of [saveOrder] and [saveCost] between the read and
    the write do to the array *)
Lemma upsert_cases {T : Type} (p : T -> bool) (l : list T) (y : T) :
  let l' := if (0 <=? Storage.findIndex p l)%Z
            then Storage.assign l (Z.to_nat (Storage.findIndex p l)) y
            else l ++ [y] in
  (existsb p l = false /\ l' = l ++ [y])
  \/ (exists l1 x l2, l = l1 ++ x :: l2 /\ existsb p l1 = false /\ p x = true
        /\ l' = l1 ++ y :: l2).
Proof.
  intros l'. subst l'. unfold Storage.findIndex.
  destruct (existsb p l) eqn:H.
  - right. destruct (findIndex_from_split p l 0 H) as (l1 & x & l2 & -> & H1 & Hx & E).
    exists l1, x, l2. rewrite E. repeat split; auto.
    replace (0 <=? 0 + Z.of_nat (length l1))%Z with true by (symmetry; apply Z.leb_le; lia).
    rewrite Z.add_0_l, Nat2Z.id. apply assign_middle.
  - left. rewrite (findIndex_from_none p l 0 H). split; reflexivity.
Qed.

Lemma find_app_skip {T : Type} (p : T -> bool) (l1 l2 : list T) :
  existsb p l1 = false -> find p (l1 ++ l2) = find p l2.
Proof.
  induction l1 as [| x l1 IH]; simpl; [reflexivity |].
  intros H. apply orb_false_iff in H as [Hx H]. rewrite Hx. now apply IH.
Qed.

Lemma find_app_replace {T : Type} (p : T -> bool) (l1 l2 : list T) (x y : T) :
  p x = false -> p y = false ->
  find p (l1 ++ y :: l2) = find p (l1 ++ x :: l2).
Proof.
  intros Hx Hy. induction l1 as [| z l1 IH]; simpl.
  - now rewrite Hx, Hy.
  - now rewrite IH.
Qed.

Lemma find_none_existsb {T : Type} (p : T -> bool) (l : list T) :
  existsb p l = false -> find p l = None.
Proof.
  induction l as [| x l IH]; simpl; [reflexivity |].
  intros H. apply orb_false_iff in H as [Hx H]. rewrite Hx. now apply IH.
Qed.

Lemma existsb_In_map {T : Type} (key : T -> string) (k : string) (l : list T) :
  existsb (fun x => String.eqb (key x) k) l = true <-> In k (map key l).
Proof.
  rewrite existsb_exists, in_map_iff. split.
  - intros (x & Hx & E). apply String.eqb_eq in E. now exists x.
  - intros (x & E & Hx). exists x. split; [exact Hx | now apply String.eqb_eq].
Qed.

Lemma find_map_key {T : Type} (key : T -> string) (f : T -> T) (k : string) (l : list T) :
  (forall x, key (f x) = key x) ->
  find (fun x => String.eqb (key x) k) (map f l)
  = option_map f (find (fun x => String.eqb (key x) k) l).
Proof.
  intros Hf. induction l as [| x l IH]; simpl; [reflexivity |].
  rewrite Hf. destruct (String.eqb (key x) k); [reflexivity | exact IH].
Qed.

Lemma find_app_last {T : Type} (p : T -> bool) (l : list T) (y : T) :
  p y = false -> find p (l ++ [y]) = find p l.
Proof.
  intros Hy. induction l as [| x l IH]; simpl; [now rewrite Hy |].
  now rewrite IH.
Qed.

Lemma filter_keys {T : Type} (key : T -> string) (q : string -> bool) (l : list T) :
  map key (filter (fun x => q (key x)) l) = filter q (map key l).
Proof.
  induction l as [| x l IH]; simpl; [reflexivity |].
  destruct (q (key x)); simpl; now rewrite IH.
Qed.

Lemma filter_app_last_out {T : Type} (q : T -> bool) (l : list T) (y : T) :
  q y = false -> filter q (l ++ [y]) = filter q l.
Proof. intros Hy. rewrite filter_app. simpl. rewrite Hy. apply app_nil_r. Qed.

Section StorageProperties.

Variables settings details amounts : Type.
Variable json_settings : settings -> settings.
Variable json_details : details -> details.
Variable json_amounts : amounts -> amounts.

Implicit Types st : Storage.state settings details amounts.

Lemma getConfig_setPin st (pin : string) :
  Storage.getConfig (Storage.setPin json_settings st pin)
  = {| Storage.pin_hash := Storage.hashPin pin;
       Storage.config_rest := json_settings (Storage.config_rest (Storage.getConfig st)) |}.
Proof.
  unfold Storage.setPin, Storage.saveConfig, Storage.set_CONFIG, Storage.getConfig.
  destruct (Storage.CONFIG st); reflexivity.
Qed.

Lemma verifyPin_setPin st (pin q : string) :
  Storage.verifyPin (Storage.setPin json_settings st pin) q
  = String.eqb (Storage.hashPin q) (Storage.hashPin pin).
Proof.
  unfold Storage.verifyPin. rewrite getConfig_setPin. cbn [Storage.pin_hash].
  unfold Storage.hashPin at 1. now rewrite toString16_nonempty.
Qed.

Lemma getOrders_set st (l : list (Storage.Order details)) :
  Storage.getOrders (Storage.set_ORDERS _ _ _ json_details st l)
  = map (Storage.json_order json_details) l.
Proof. reflexivity. Qed.

Lemma order_id_json (o : Storage.Order details) :
  Storage.order_id (Storage.json_order json_details o) = Storage.order_id o.
Proof. reflexivity. Qed.

Lemma order_ids_json (l : list (Storage.Order details)) :
  map Storage.order_id (map (Storage.json_order json_details) l)
  = map Storage.order_id l.
Proof. rewrite map_map. apply map_ext. intros o. reflexivity. Qed.

(** X24: after [setPin(pin)] a PIN is set and [verifyPin(pin)] succeeds, from
    any store; another PIN [q] is accepted exactly when the loop of
    [hashPin] ends on the same 32-bit number for [q] and [pin]; the other
    fields of the configuration come back as JSON returns them, and the
    orders and costs in the store are not touched. *)
Theorem X24_setPin_verifyPin_round_trip st (pin q : string) :
  let st' := Storage.setPin json_settings st pin in
  Storage.isPinSet st' = true
  /\ Storage.verifyPin st' pin = true
  /\ (Storage.verifyPin st' q = true
      <-> Storage.hash_loop q = Storage.hash_loop pin)
  /\ Storage.getConfig st'
     = {| Storage.pin_hash := Storage.hashPin pin;
          Storage.config_rest :=
            json_settings (Storage.config_rest (Storage.getConfig st)) |}
  /\ Storage.ORDERS st' = Storage.ORDERS st
  /\ Storage.COSTS st' = Storage.COSTS st.
Proof.
  intros st'. subst st'. split; [| split; [| split; [| split; [| split]]]].
  - unfold Storage.isPinSet. rewrite getConfig_setPin. apply toString16_nonempty.
  - rewrite verifyPin_setPin. apply String.eqb_refl.
  - rewrite verifyPin_setPin, String.eqb_eq. apply hashPin_eq_iff.
  - apply getConfig_setPin.
  - unfold Storage.setPin. destruct (Storage.CONFIG st); reflexivity.
  - unfold Storage.setPin. destruct (Storage.CONFIG st); reflexivity.
Qed.

(** X25: on a store without configuration whose default configuration has
    the empty [pin_hash], no PIN is set and [verifyPin] accepts every PIN.
    The first [setPin] then writes the hash into the object
    [DEFAULT_CONFIG] itself, besides the store: whenever the stored
    configuration is missing afterwards, with that object still in memory,
    a PIN is set and [verifyPin] accepts only PINs with the hash of the
    one set. *)
Theorem X25_first_run_and_default_config st (pin q : string)
    (orders2 : option (list (Storage.Order details)))
    (costs2 : option (list (Storage.CostEntry amounts))) :
  Storage.CONFIG st = None ->
  Storage.pin_hash (Storage.DEFAULT_CONFIG st) = EmptyString ->
  Storage.isPinSet st = false
  /\ Storage.verifyPin st q = true
  /\ let st' := Storage.setPin json_settings st pin in
     let st2 := {| Storage.ORDERS := orders2; Storage.COSTS := costs2;
                   Storage.CONFIG := None;
                   Storage.DEFAULT_CONFIG := Storage.DEFAULT_CONFIG st' |} in
     Storage.pin_hash (Storage.DEFAULT_CONFIG st') = Storage.hashPin pin
     /\ Storage.isPinSet st2 = true
     /\ Storage.verifyPin st2 q = String.eqb (Storage.hashPin q) (Storage.hashPin pin).
Proof.
  intros Hc Hd.
  unfold Storage.isPinSet, Storage.verifyPin, Storage.getConfig, Storage.setPin.
  rewrite Hc. cbn. rewrite Hd. cbn. repeat split.
  - apply toString16_nonempty.
  - unfold Storage.hashPin at 1. now rewrite toString16_nonempty.
Qed.

(** X26: [verifyPin] does not tell apart PINs that differ in a stretch of
    equal length and equal hash: with [u] and [v] such stretches, after
    [setPin(s + u + t)] the PIN [s + v + t] is accepted, for all [s], [t]. *)
Theorem X26_verifyPin_accepts_colliding_pins st (s u v t : string) :
  String.length u = String.length v ->
  Storage.hash_loop u = Storage.hash_loop v ->
  Storage.verifyPin (Storage.setPin json_settings st (s ++ u ++ t)) (s ++ v ++ t) = true.
Proof.
  intros Hlen E. rewrite verifyPin_setPin, String.eqb_eq, hashPin_eq_iff.
  unfold Storage.hash_loop in *. rewrite !chars_app, !fold_left_app.
  f_equal. symmetry. apply hash_fold_congruence.
  - apply hash_fold_range. lia.
  - now rewrite !length_chars.
  - exact E.
Qed.

(** X27: for PINs of at most six digits, which covers the four-digit PINs
    of the PIN pad, the check is exact: after [setPin(p)], [verifyPin(q)]
    succeeds if and only if [q] is [p]. *)
Theorem X27_digit_pins_verified_exactly st (p q : string) :
  isDigits p = true -> isDigits q = true ->
  (String.length p <= 6)%nat -> (String.length q <= 6)%nat ->
  (Storage.verifyPin (Storage.setPin json_settings st p) q = true <-> q = p).
Proof.
  intros Hp Hq Lp Lq. rewrite verifyPin_setPin, String.eqb_eq, hashPin_eq_iff.
  split; [now apply hash_loop_digits_inj | now intros ->].
Qed.

(** X28: after [saveOrder(order)] the ids in the store are the ids before, in
    the same order, with the id of [order] added at the end when it was not
    there; looking an id up gives [order] for its own id and the order found
    before for any other id, each as JSON returns it; ids are pairwise
    distinct after the call exactly when they were before. *)
Theorem X28_saveOrder_upsert st (order : Storage.Order details) (i : string) :
  let orders := Storage.getOrders st in
  let orders' := Storage.getOrders (Storage.saveOrder json_details st order) in
  map Storage.order_id orders'
  = (if existsb (fun o : Storage.Order details => String.eqb (Storage.order_id o) (Storage.order_id order)) orders
     then map Storage.order_id orders
     else map Storage.order_id orders ++ [Storage.order_id order])
  /\ find (fun o : Storage.Order details => String.eqb (Storage.order_id o) i) orders'
     = (if String.eqb i (Storage.order_id order)
        then Some (Storage.json_order json_details order)
        else option_map (Storage.json_order json_details) (find (fun o : Storage.Order details => String.eqb (Storage.order_id o) i) orders))
  /\ (NoDup (map Storage.order_id orders') <-> NoDup (map Storage.order_id orders)).
Proof.
  intros orders orders'. subst orders'. unfold Storage.saveOrder.
  fold orders. rewrite getOrders_set, order_ids_json.
  rewrite (find_map_key Storage.order_id _ i _ order_id_json).
  set (p := fun o : Storage.Order details =>
              String.eqb (Storage.order_id o) (Storage.order_id order)).
  assert (Hp : p order = true) by apply String.eqb_refl.
  destruct (upsert_cases p orders order)
    as [[Hno ->] | (l1 & x & l2 & E & H1 & Hx & ->)].
  - rewrite Hno, map_app. simpl map. split; [reflexivity |]. split.
    + destruct (String.eqb_spec i (Storage.order_id order)) as [-> | Hi].
      * rewrite find_app_skip by exact Hno. simpl. now rewrite String.eqb_refl.
      * rewrite find_app_last; [reflexivity |].
        apply String.eqb_neq. congruence.
    + split.
      * intros H. now apply NoDup_remove_1 with (l' := []) in H; rewrite app_nil_r in H.
      * intros H. apply NoDup_app; [exact H | repeat constructor; intros [] |].
        intros k Hk [<- | []].
        apply (existsb_In_map Storage.order_id) in Hk. fold p in Hk. congruence.
  - assert (Hid : Storage.order_id x = Storage.order_id order)
      by (now apply String.eqb_eq).
    assert (Hall : existsb p orders = true).
    { rewrite E, existsb_app. simpl. rewrite Hx. apply orb_true_r. }
    assert (Hids : map Storage.order_id (l1 ++ order :: l2) = map Storage.order_id orders).
    { rewrite E, !map_app. simpl. now rewrite Hid. }
    rewrite Hall, Hids. split; [reflexivity |]. split; [| reflexivity].
    destruct (String.eqb_spec i (Storage.order_id order)) as [-> | Hi].
    + rewrite find_app_skip by exact H1. simpl. now rewrite String.eqb_refl.
    + rewrite E. f_equal. apply find_app_replace; apply String.eqb_neq; congruence.
Qed.

Lemma deleteOrder_ids st (i : string) :
  map Storage.order_id (Storage.getOrders (Storage.deleteOrder json_details st i))
  = filter (fun k => negb (String.eqb k i)) (map Storage.order_id (Storage.getOrders st)).
Proof.
  unfold Storage.deleteOrder. rewrite getOrders_set, order_ids_json.
  apply (filter_keys Storage.order_id (fun k => negb (String.eqb k i))).
Qed.

Lemma clear_loop (l : list (Storage.Order details)) st :
  incl (map Storage.order_id (Storage.getOrders st)) (map Storage.order_id l) ->
  Storage.getOrders
    (fold_left (fun s o => Storage.deleteOrder json_details s (Storage.order_id o)) l st)
  = [].
Proof.
  revert st. induction l as [| a l IH]; intros st H; simpl.
  - destruct (Storage.getOrders st) as [| o tl]; [reflexivity |].
    destruct (H (Storage.order_id o)). now left.
  - apply IH. rewrite deleteOrder_ids. intros k Hk.
    apply filter_In in Hk as [Hk Hne]. destruct (H k Hk) as [<- | Hin]; [| exact Hin].
    now rewrite String.eqb_refl in Hne.
Qed.

(** X29: [deleteOrder(id)] removes every order with that id and keeps the
    others in their order: looking an id up afterwards gives nothing for
    [id] and the order found before for any other id, as JSON returns it.
    Deleting the order just saved gives back the ids of the orders that had
    another id.  Deleting every order in turn, as the settings page does to
    clear the data, leaves no order. *)
Theorem X29_deleteOrder_removes st (order : Storage.Order details) (id i : string) :
  let orders := Storage.getOrders st in
  let orders' := Storage.getOrders (Storage.deleteOrder json_details st id) in
  map Storage.order_id orders'
  = filter (fun k => negb (String.eqb k id)) (map Storage.order_id orders)
  /\ ~ In id (map Storage.order_id orders')
  /\ find (fun o : Storage.Order details => String.eqb (Storage.order_id o) i) orders'
     = (if String.eqb i id then None
        else option_map (Storage.json_order json_details) (find (fun o : Storage.Order details => String.eqb (Storage.order_id o) i) orders))
  /\ map Storage.order_id
       (Storage.getOrders
          (Storage.deleteOrder json_details
             (Storage.saveOrder json_details st order) (Storage.order_id order)))
     = filter (fun k => negb (String.eqb k (Storage.order_id order)))
         (map Storage.order_id orders)
  /\ Storage.getOrders (Storage.handleClearAll json_details st) = [].
Proof.
  intros orders orders'. subst orders'. rewrite deleteOrder_ids. fold orders.
  split; [reflexivity |]. split.
  { intros H. apply filter_In in H as [_ H]. now rewrite String.eqb_refl in H. }
  split.
  { unfold Storage.deleteOrder. fold orders. rewrite getOrders_set.
    rewrite (find_map_key Storage.order_id _ i _ order_id_json).
    destruct (String.eqb_spec i id) as [-> | Hi].
    - replace (find _ _) with (@None (Storage.Order details)); [reflexivity |].
      symmetry. apply find_none_existsb.
      apply not_true_is_false. intros H.
      apply existsb_exists in H as (o & Ho & Eo). apply filter_In in Ho as [_ Ho].
      now rewrite Eo in Ho.
    - f_equal. induction orders as [| o l IH]; simpl; [reflexivity |].
      destruct (String.eqb_spec (Storage.order_id o) id) as [Eo | No]; simpl.
      + replace (String.eqb (Storage.order_id o) i) with false; [exact IH |].
        symmetry. apply String.eqb_neq. congruence.
      + now rewrite IH. }
  split.
  { rewrite deleteOrder_ids. unfold Storage.saveOrder. fold orders.
    rewrite getOrders_set, order_ids_json.
    set (p := fun o : Storage.Order details =>
              String.eqb (Storage.order_id o) (Storage.order_id order)).
    destruct (upsert_cases p orders order)
      as [[Hno ->] | (l1 & x & l2 & E & H1 & Hx & ->)].
    - rewrite map_app. simpl map. apply filter_app_last_out.
      now rewrite String.eqb_refl.
    - apply String.eqb_eq in Hx. rewrite E, !map_app. simpl. now rewrite Hx. }
  unfold Storage.handleClearAll. apply clear_loop. apply incl_refl.
Qed.

Lemma getCosts_set st (l : list (Storage.CostEntry amounts)) :
  Storage.getCosts (Storage.set_COSTS _ _ _ json_amounts st l)
  = map (Storage.json_cost json_amounts) l.
Proof. reflexivity. Qed.

Lemma cost_month_json (c : Storage.CostEntry amounts) :
  Storage.cost_month (Storage.json_cost json_amounts c) = Storage.cost_month c.
Proof. reflexivity. Qed.

Lemma cost_key_inj (m1 m2 : string) :
  ("cost_" ++ m1 = "cost_" ++ m2)%string -> m1 = m2.
Proof. simpl. intros E. now injection E. Qed.

(** X30: in a store where every cost entry has the id [cost_<month>] of its
    month, as the entries of the costs page have, saving the figures of a
    month makes [getCostForMonth] return them for that month, as JSON
    returns them, and leaves what it returns for every other month; the
    entries of the store still have the ids of their months. *)
Theorem X30_costs_of_month_round_trip st (month m : string) (figures : amounts) :
  (forall c, In c (Storage.getCosts st) ->
             Storage.cost_id c = ("cost_" ++ Storage.cost_month c)%string) ->
  let st' := Storage.handleSave json_amounts st month figures in
  Storage.getCostForMonth st' m
  = (if String.eqb m month
     then Some {| Storage.cost_id := ("cost_" ++ month)%string;
                  Storage.cost_month := month;
                  Storage.cost_rest := json_amounts figures |}
     else option_map (Storage.json_cost json_amounts) (Storage.getCostForMonth st m))
  /\ (forall c, In c (Storage.getCosts st') ->
                Storage.cost_id c = ("cost_" ++ Storage.cost_month c)%string).
Proof.
  intros Inv st'. subst st'.
  unfold Storage.handleSave, Storage.saveCost, Storage.getCostForMonth.
  set (costs := Storage.getCosts st) in *.
  set (entry := {| Storage.cost_id := ("cost_" ++ month)%string;
                   Storage.cost_month := month; Storage.cost_rest := figures |}).
  rewrite getCosts_set.
  rewrite (find_map_key Storage.cost_month _ m _ cost_month_json).
  set (p := fun c : Storage.CostEntry amounts =>
              String.eqb (Storage.cost_id c) (Storage.cost_id entry)).
  assert (Hmonth : forall l, incl l costs -> existsb p l = false ->
                             existsb (fun c : Storage.CostEntry amounts => String.eqb (Storage.cost_month c) month) l = false).
  { intros l Hl Hno. apply not_true_is_false. intros H.
    apply existsb_exists in H as (c & Hc & Ec). apply String.eqb_eq in Ec.
    assert (existsb p l = true); [| congruence].
    apply existsb_exists. exists c. split; [exact Hc |].
    apply String.eqb_eq. rewrite (Inv c (Hl c Hc)), Ec. reflexivity. }
  destruct (upsert_cases p costs entry)
    as [[Hno ->] | (l1 & x & l2 & E & H1 & Hx & ->)].
  - split.
    + destruct (String.eqb_spec m month) as [-> | Hm].
      * rewrite find_app_skip by (apply Hmonth; [apply incl_refl | exact Hno]).
        simpl. now rewrite String.eqb_refl.
      * rewrite find_app_last; [reflexivity |].
        apply String.eqb_neq. simpl. congruence.
    + intros c Hc. apply in_map_iff in Hc as (c0 & <- & Hc0).
      apply in_app_iff in Hc0 as [Hc0 | [<- | []]]; [| reflexivity].
      apply (Inv c0 Hc0).
  - assert (Hxm : Storage.cost_month x = month).
    { apply String.eqb_eq in Hx. apply cost_key_inj.
      rewrite <- (Inv x); [exact Hx |]. rewrite E. apply in_elt. }
    split.
    + destruct (String.eqb_spec m month) as [-> | Hm].
      * rewrite find_app_skip.
        -- simpl. now rewrite String.eqb_refl.
        -- apply Hmonth; [| exact H1]. rewrite E. apply incl_appl, incl_refl.
      * rewrite E. f_equal.
        apply find_app_replace; apply String.eqb_neq; simpl; congruence.
    + intros c Hc. apply in_map_iff in Hc as (c0 & <- & Hc0).
      apply in_app_iff in Hc0 as [Hc0 | [<- | Hc0]]; [| reflexivity |].
      * apply (Inv c0). rewrite E. apply in_or_app. now left.
      * apply (Inv c0). rewrite E. apply in_or_app. right. now right.
Qed.

End StorageProperties.

Lemma X25_first_run_and_default_config_witness :
  Storage.verifyPin (fresh_store tt : Storage.state unit unit unit) "0000" = true
  /\ Storage.pin_hash
       (Storage.DEFAULT_CONFIG
          (Storage.setPin (fun u => u)
             (fresh_store tt : Storage.state unit unit unit) "1234"))
     = Storage.hashPin "1234".
Proof.
  pose proof (X25_first_run_and_default_config unit unit unit (fun u => u)
                (fresh_store tt) "1234" "0000" None None eq_refl eq_refl) as H.
  split; [exact (proj1 (proj2 H)) | exact (proj1 (proj2 (proj2 H)))].
Defined.

Lemma X26_verifyPin_accepts_colliding_pins_witness :
  Storage.verifyPin
    (Storage.setPin (fun u => u)
       (fresh_store tt : Storage.state unit unit unit) "12Aa") "12BB" = true.
Proof.
  apply (X26_verifyPin_accepts_colliding_pins unit unit unit (fun u => u)
           (fresh_store tt) "12" "Aa" "BB" EmptyString); reflexivity.
Defined.

Lemma X27_digit_pins_verified_exactly_witness :
  Storage.verifyPin
    (Storage.setPin (fun u => u)
       (fresh_store tt : Storage.state unit unit unit) "1234") "4321" = true
  <-> "4321"%string = "1234"%string.
Proof.
  apply (X27_digit_pins_verified_exactly unit unit unit (fun u => u)
           (fresh_store tt) "1234" "4321");
    [reflexivity | reflexivity | simpl; lia | simpl; lia].
Defined.

Lemma X30_costs_of_month_round_trip_witness :
  Storage.getCostForMonth
    (Storage.handleSave (fun z : Z => z)
       (Storage.handleSave (fun z : Z => z)
          (fresh_store tt : Storage.state unit unit Z) "2024-01" 5%Z)
       "2024-02" 7%Z) "2024-01"
  = Some {| Storage.cost_id := "cost_2024-01"; Storage.cost_month := "2024-01";
            Storage.cost_rest := 5%Z |}.
Proof.
  assert (Inv : forall c,
             In c (Storage.getCosts
                     (Storage.handleSave (fun z : Z => z)
                        (fresh_store tt : Storage.state unit unit Z) "2024-01" 5%Z)) ->
             Storage.cost_id c = ("cost_" ++ Storage.cost_month c)%string).
  { intros c [<- | []]. reflexivity. }
  exact (proj1 (X30_costs_of_month_round_trip unit unit Z (fun z => z) _
                  "2024-02" "2024-01" 7%Z Inv)).
Defined.
